(** * pdfParser: the table-reconstruction engine of [app.py]

    A shallow embedding of [AdvancedPDFTableExtractor] (src/app.py) and the
    properties its specification states about it.

    Conventions of the embedding.
    - A Python [str] is a list of Unicode code points ([N]); [isspace] is the
      whitespace class shared by [str.strip] and the regular expression [\s].
    - A layout coordinate is a rational ([Q]): every finite float is one, and
      [round], the comparisons and the sort keys are exact on them.  The
      difference [prev_y - element.y1] is taken exactly; the lemmas on the
      Block Segmenter hold whatever the outcome of the gap test.  NaN and
      the infinities, on which [round] raises, are no layout coordinates and
      are outside the model.
    - The instance attribute [self.all_tables] is threaded explicitly; a
      method that may raise returns a [result].
    - [pandas.DataFrame(rows, columns=headers)] is the record of its two
      arguments. *)

From Stdlib Require Import String Ascii.
From Stdlib Require Import List ZArith NArith QArith Qround Qabs.
From Stdlib Require Import Bool Lia Lqa Permutation Sorted.
Import ListNotations.

Local Open Scope nat_scope.

(** ** Python strings *)

Module PyStr.

Definition char := N.
Definition str := list char.

(** A literal of the source, written as a Rocq string. *)
Definition lit (s : string) : str := map N_of_ascii (list_ascii_of_string s).
Arguments lit s%_string.

Definition TAB : char := 9%N.
Definition NL : char := 10%N.
Definition SPACE : char := 32%N.
Definition COLON : char := 58%N.
Definition PIPE : char := 124%N.
Definition SEMICOLON : char := 59%N.
Definition COMMA : char := 44%N.

(** [str.isspace] on one code point: the table of CPython's
    [_PyUnicode_IsWhitespace]. *)
Definition isspace (c : char) : bool :=
  (((9 <=? c) && (c <=? 13)) || ((28 <=? c) && (c <=? 32))
   || (c =? 133) || (c =? 160) || (c =? 5760)
   || ((8192 <=? c) && (c <=? 8202))
   || (c =? 8232) || (c =? 8233) || (c =? 8239) || (c =? 8287)
   || (c =? 12288))%N.

Fixpoint lstrip (s : str) : str :=
  match s with
  | [] => []
  | c :: s' => if isspace c then lstrip s' else s
  end.

Definition rstrip (s : str) : str := rev (lstrip (rev s)).

(** [s.strip()] *)
Definition strip (s : str) : str := rstrip (lstrip s).

(** [c in s] for a one-character [c]. *)
Definition contains (c : char) (s : str) : bool := existsb (N.eqb c) s.

(** [s.count(c)] for a one-character [c]. *)
Fixpoint count (c : char) (s : str) : nat :=
  match s with
  | [] => 0
  | x :: s' => if N.eqb x c then S (count c s') else count c s'
  end.

(** [s.split(sep)] for a one-character [sep]: never the empty list. *)
Fixpoint split (sep : char) (s : str) : list str :=
  match s with
  | [] => [[]]
  | c :: s' =>
      if N.eqb c sep then [] :: split sep s'
      else match split sep s' with
           | cell :: cells => (c :: cell) :: cells
           | [] => [[c]]
           end
  end.

(** [sep.join(parts)] for a one-character [sep]. *)
Fixpoint join (sep : char) (parts : list str) : str :=
  match parts with
  | [] => []
  | [p] => p
  | p :: ps => p ++ sep :: join sep ps
  end.

(** [re.sub(r'\s+', ' ', s)]: every maximal run of whitespace becomes one
    space.  [in_run] tells that the previous character was whitespace. *)
Fixpoint sub_ws_from (in_run : bool) (s : str) : str :=
  match s with
  | [] => []
  | c :: s' =>
      if isspace c
      then (if in_run then sub_ws_from true s' else SPACE :: sub_ws_from true s')
      else c :: sub_ws_from false s'
  end.

Definition re_sub_ws (s : str) : str := sub_ws_from false s.

End PyStr.
Import PyStr.

(** ** Results of methods that may raise *)

Inductive PyError : Type := IndexError.

Inductive result (A : Type) : Type :=
| Ok (a : A)
| Raise (e : PyError).
Arguments Ok {A} a.
Arguments Raise {A} e.

Definition bind {A B : Type} (r : result A) (k : A -> result B) : result B :=
  match r with
  | Ok a => k a
  | Raise e => Raise e
  end.

Notation "'let*' x ':=' r 'in' k" := (bind r (fun x => k))
  (at level 10, x name, r at level 100, k at level 200).

(** ** Table Normalizer *)

(** [pd.DataFrame(data, columns=columns)] *)
Record DataFrame : Type := mkDataFrame {
  columns : list str;
  data : list (list str)
}.

(** The body of the loop of [_create_dataframe] on one row. *)
Definition clean_row (max_cols : nat) (row : list str) : list str :=
  if max_cols <? length row then firstn max_cols row
  else if length row <? max_cols then row ++ repeat (lit "") (max_cols - length row)
  else row.

(** [_create_dataframe]: [table_data[0]] raises [IndexError] on the empty list. *)
Definition _create_dataframe (table_data : list (list str)) : result DataFrame :=
  match table_data with
  | [] => Raise IndexError
  | headers :: rows =>
      let max_cols := length headers in
      let cleaned_rows :=
        fold_left (fun cleaned row => cleaned ++ [clean_row max_cols row]) rows [] in
      Ok (mkDataFrame headers cleaned_rows)
  end.

(** ** Layout elements *)

(** A positioned text container: its text and its bounding box. *)
Record LTTextContainer : Type := mkText {
  get_text : str;
  x0 : Q;
  y0 : Q;
  x1 : Q;
  y1 : Q
}.

(** The content elements of a page.  Only a text container is read by the
    engine; [LTImage] stands for every layout item outside the four classes
    that [extract_all_tables] keeps. *)
Inductive Element : Type :=
| Text (e : LTTextContainer)
| LTRect
| LTLine
| LTFigure
| LTImage.

(** [isinstance(element, (LTTextContainer, LTRect, LTLine, LTFigure))] *)
Definition is_kept (element : Element) : bool :=
  match element with
  | LTImage => false
  | _ => true
  end.

(** [[e for e in elements if isinstance(e, LTTextContainer)]] *)
Fixpoint text_elements (elements : list Element) : list LTTextContainer :=
  match elements with
  | [] => []
  | Text e :: rest => e :: text_elements rest
  | _ :: rest => text_elements rest
  end.

(** ** Numbers, dictionaries and sorting of the Python runtime *)

Definition Qltb (a b : Q) : bool :=
  match (a ?= b)%Q with
  | Lt => true
  | _ => false
  end.

(** [round(q)]: to the nearest integer, a half to the even neighbour. *)
Definition round (q : Q) : Z :=
  let f := Qfloor q in
  match (q - inject_Z f ?= 1 # 2)%Q with
  | Lt => f
  | Gt => (f + 1)%Z
  | Eq => if Z.even f then f else (f + 1)%Z
  end.

(** [if y not in rows: rows[y] = []] followed by [rows[y].append(e)], on a
    dictionary kept as the list of its items in insertion order. *)
Fixpoint dict_append {V : Type} (rows : list (Z * list V)) (y : Z) (e : V)
  : list (Z * list V) :=
  match rows with
  | [] => [(y, [e])]
  | (k, v) :: rows' =>
      if Z.eqb k y then (k, v ++ [e]) :: rows'
      else (k, v) :: dict_append rows' y e
  end.

(** [sorted] and [list.sort] are stable: an element goes before the first
    one that is not smaller than it.  [lt a b] is [key(a) < key(b)]. *)
Section Sorting.
Context {A : Type} (lt : A -> A -> bool).

Fixpoint insert (a : A) (l : list A) : list A :=
  match l with
  | [] => [a]
  | b :: l' => if lt b a then b :: insert a l' else a :: l
  end.

Definition sorted (l : list A) : list A := fold_right insert [] l.

End Sorting.

(** ** The extractor *)

Inductive TableType : Type :=
| regular_tables
| tab_separated
| colon_separated
| other_delimited.

(** [self.all_tables] *)
Record AllTables : Type := mkAllTables {
  regular : list DataFrame;
  tab : list DataFrame;
  colon : list DataFrame;
  other : list DataFrame
}.

(** [self.all_tables[table_type].append(df)] *)
Definition append_table (all_tables : AllTables) (table_type : TableType)
  (df : DataFrame) : AllTables :=
  match table_type with
  | regular_tables =>
      mkAllTables (regular all_tables ++ [df]) (tab all_tables)
        (colon all_tables) (other all_tables)
  | tab_separated =>
      mkAllTables (regular all_tables) (tab all_tables ++ [df])
        (colon all_tables) (other all_tables)
  | colon_separated =>
      mkAllTables (regular all_tables) (tab all_tables)
        (colon all_tables ++ [df]) (other all_tables)
  | other_delimited =>
      mkAllTables (regular all_tables) (tab all_tables)
        (colon all_tables) (other all_tables ++ [df])
  end.

(** [__init__] *)
Definition init_tables : AllTables := mkAllTables [] [] [] [].
Definition min_row_gap : Q := 5.

(** *** Row Clusterer *)

(** The first loop of [_extract_regular_tables]: the dictionary [rows]. *)
Definition group_rows (elements : list Element) : list (Z * list LTTextContainer) :=
  fold_left
    (fun rows element =>
       match element with
       | Text e => dict_append rows (round (y0 e)) e
       | _ => rows
       end)
    elements [].

(** [sorted(rows.items(), key=lambda x: -x[0])] *)
Definition sorted_rows (elements : list Element) : list (Z * list LTTextContainer) :=
  sorted (fun a b => (- fst a <? - fst b)%Z) (group_rows elements).

(** [row_elements.sort(key=lambda e: e.x0)] *)
Definition sort_row (row_elements : list LTTextContainer) : list LTTextContainer :=
  sorted (fun a b => Qltb (x0 a) (x0 b)) row_elements.

(** The second loop of [_extract_regular_tables]: [table_data]. *)
Definition regular_table_data (elements : list Element) : list (list str) :=
  fold_left
    (fun table_data item =>
       let row_elements := sort_row (snd item) in
       let row_data := map (fun e => strip (get_text e)) row_elements in
       table_data ++ [row_data])
    (sorted_rows elements) [].

Definition _extract_regular_tables (all_tables : AllTables)
  (elements : list Element) : result AllTables :=
  let table_data := regular_table_data elements in
  if 1 <? length table_data
  then let* df := _create_dataframe table_data in
       Ok (append_table all_tables regular_tables df)
  else Ok all_tables.

(** *** Block Segmenter *)

(** [key(a) < key(b)] for the key [(-e.y1, e.x0)], compared as tuples. *)
Definition block_key_lt (a b : LTTextContainer) : bool :=
  if Qeq_bool (- y1 a) (- y1 b) then Qltb (x0 a) (x0 b)
  else Qltb (- y1 a) (- y1 b).

(** [prev_y is None or abs(prev_y - element.y1) > self.min_row_gap] *)
Definition starts_block (prev_y : option Q) (element : LTTextContainer) : bool :=
  match prev_y with
  | None => true
  | Some p => Qltb min_row_gap (Qabs (p - y1 element))
  end.

(** The state of the loop of [_group_text_blocks]. *)
Record Grouping : Type := mkGrouping {
  blocks : list str;
  current_block : list str;
  prev_y : option Q
}.

(** [if current_block: blocks.append('\n'.join(current_block))] *)
Definition flush (blocks : list str) (current_block : list str) : list str :=
  match current_block with
  | [] => blocks
  | _ => blocks ++ [join NL current_block]
  end.

Definition group_step (g : Grouping) (element : LTTextContainer) : Grouping :=
  if starts_block (prev_y g) element
  then mkGrouping (flush (blocks g) (current_block g))
         [get_text element] (Some (y1 element))
  else mkGrouping (blocks g)
         (current_block g ++ [get_text element]) (Some (y1 element)).

Definition _group_text_blocks (elements : list LTTextContainer) : list str :=
  let sorted_elements := sorted block_key_lt elements in
  let g := fold_left group_step sorted_elements (mkGrouping [] [] None) in
  flush (blocks g) (current_block g).

(** *** Delimiter Classifier *)

(** The first loop of [_process_delimited_table]: [table_data]. *)
Definition delimited_table_data (lines : list str) (delimiter : char)
  : list (list str) :=
  fold_left
    (fun table_data line =>
       if contains delimiter line
       then let cleaned := re_sub_ws (strip line) in
            let row := map strip (split delimiter cleaned) in
            table_data ++ [row]
       else table_data)
    lines [].

Definition _process_delimited_table (all_tables : AllTables) (lines : list str)
  (delimiter : char) (table_type : TableType) : result AllTables :=
  let table_data := delimited_table_data lines delimiter in
  if 1 <? length table_data
  then let* df := _create_dataframe table_data in
       Ok (append_table all_tables table_type df)
  else Ok all_tables.

(** [any(delim in line and line.count(delim) > 1 for line in lines)] *)
Definition repeated (delim : char) (lines : list str) : bool :=
  existsb (fun line => contains delim line && (1 <? count delim line)) lines.

(** The loop [for delim in [...]: if any(...): ...; break]: the delimiter, if
    any, at which it calls [_process_delimited_table]. *)
Fixpoint first_repeated (delims : list char) (lines : list str) : option char :=
  match delims with
  | [] => None
  | delim :: rest =>
      if repeated delim lines then Some delim else first_repeated rest lines
  end.

(** The branch taken by the [if]/[elif]/[else] chain in the loop of
    [_extract_delimited_tables], as the arguments of the one call of
    [_process_delimited_table] it makes ([None]: no call). *)
Definition choose_delimiter (lines : list str) : option (char * TableType) :=
  if existsb (contains TAB) lines then Some (TAB, tab_separated)
  else if repeated COLON lines then Some (COLON, colon_separated)
  else match first_repeated [PIPE; SEMICOLON; COMMA] lines with
       | Some delim => Some (delim, other_delimited)
       | None => None
       end.

(** The body of the loop of [_extract_delimited_tables]. *)
Definition extract_block (all_tables : AllTables) (block : str) : result AllTables :=
  let lines := split NL block in
  match choose_delimiter lines with
  | Some (delimiter, table_type) =>
      _process_delimited_table all_tables lines delimiter table_type
  | None => Ok all_tables
  end.

(** A [for] loop whose body may raise. *)
Definition for_each {S X : Type} (body : S -> X -> result S) (xs : list X) (s : S)
  : result S :=
  fold_left (fun acc x => let* s' := acc in body s' x) xs (Ok s).

Definition _extract_delimited_tables (all_tables : AllTables)
  (elements : list LTTextContainer) : result AllTables :=
  let text_blocks := _group_text_blocks elements in
  for_each extract_block text_blocks all_tables.

(** *** Extraction Orchestrator *)

Definition _process_page_elements (all_tables : AllTables)
  (elements : list Element) : result AllTables :=
  let texts := text_elements elements in
  let* all_tables' := _extract_regular_tables all_tables elements in
  _extract_delimited_tables all_tables' texts.

(** [extract_all_tables], on the pages the layout provider yields. *)
Definition extract_all_tables (all_tables : AllTables)
  (pages : list (list Element)) : result AllTables :=
  for_each
    (fun all_tables page_layout =>
       let page_elements := filter is_kept page_layout in
       _process_page_elements all_tables page_elements)
    pages all_tables.

(** ** Vocabulary of the specification *)

Definition all_space (s : str) : Prop := Forall (fun c => isspace c = true) s.

(** What "every maximal whitespace run becomes one space" means. *)
Inductive collapsed : str -> str -> Prop :=
| collapsed_nil : collapsed [] []
| collapsed_char c s r :
    isspace c = false -> collapsed s r -> collapsed (c :: s) (c :: r)
| collapsed_run w s r :
    w <> [] -> all_space w ->
    (forall c rest, s = c :: rest -> isspace c = false) ->
    collapsed s r -> collapsed (w ++ s) (SPACE :: r).

(** The RawRow of a line, in the words of the specification: trim the line,
    collapse every whitespace run to one space, split on the delimiter, trim
    each cell. *)
Definition row_of_line (delimiter : char) (line : str) : list str :=
  let trimmed := strip line in
  let normalized := re_sub_ws trimmed in
  let cells := split delimiter normalized in
  map strip cells.

(** Some line contains the character [c]. *)
Definition some_line_has (c : char) (lines : list str) : Prop :=
  exists line, In line lines /\ In c line.

(** Some line contains the character [c] more than once. *)
Definition some_line_repeats (c : char) (lines : list str) : Prop :=
  exists line, In line lines /\ 1 < count c line.

(** A table of one column: one header and one cell in every row. *)
Definition one_column (df : DataFrame) : Prop :=
  length (columns df) = 1 /\ Forall (fun row => length row = 1) (data df).

(** The row key of a text element. *)
Definition row_key (e : LTTextContainer) : Z := round (y0 e).

(** The dictionary [rows] as a function of the text elements alone. *)
Definition rows_of_texts (texts : list LTTextContainer)
  : list (Z * list LTTextContainer) :=
  fold_left (fun rows e => dict_append rows (row_key e) e) texts [].

(** No line of a block meets any rule of the classifier. *)
Definition no_delimiter_rule (lines : list str) : Prop :=
  ~ some_line_has TAB lines
  /\ ~ some_line_repeats COLON lines
  /\ ~ some_line_repeats PIPE lines
  /\ ~ some_line_repeats SEMICOLON lines
  /\ ~ some_line_repeats COMMA lines.

(** [rows[y]], the empty list when [y] is not a key. *)
Definition dict_get {V : Type} (rows : list (Z * list V)) (y : Z) : list V :=
  match find (fun item => Z.eqb (fst item) y) rows with
  | Some item => snd item
  | None => []
  end.

(** The element belongs to the row of key [k]. *)
Definition in_row (k : Z) (e : LTTextContainer) : bool := Z.eqb (row_key e) k.

(** The cell of a text element in the regular table. *)
Definition cell (e : LTTextContainer) : str := strip (get_text e).

(** The output of the Row Clusterer with its keys: the row keys in output
    order, each with its elements as sorted by [list.sort]. *)
Definition clustered_rows (elements : list Element)
  : list (Z * list LTTextContainer) :=
  map (fun item => (fst item, sort_row (snd item))) (sorted_rows elements).

(** No two text elements (at different positions) of one row have the same
    [x0]. *)
Definition distinct_x0_in_rows (texts : list LTTextContainer) : Prop :=
  ForallOrdPairs
    (fun a b => row_key a = row_key b -> ~ (x0 a == x0 b)%Q) texts.

(** The lines of text of a page: those of each text element. *)
Definition page_lines (texts : list LTTextContainer) : list str :=
  flat_map (fun e => split NL (get_text e)) texts.

(** The delimiters that qualify a block only when repeated in a line. *)
Definition repeat_delimiters : list char := [COLON; PIPE; SEMICOLON; COMMA].

(** ** Example pages *)

(** Two paragraphs of prose, one above the other, without any delimiter. *)
Definition prose_page : list Element :=
  [Text (mkText (lit "Hello world.") 72 700 300 712);
   Text (mkText (lit "Second paragraph.") 72 680 300 692)].

(** Two lines of one block, each with a single tab. *)
Definition tab_page : list Element :=
  [Text (mkText (lit "a" ++ TAB :: lit "b") 72 700 300 712);
   Text (mkText (lit "c" ++ TAB :: lit "d") 72 697 300 709)].

(** The end-to-end scenario of the specification. *)
Definition name_age_page : list Element :=
  [Text (mkText (lit "Name") 72 700 110 712);
   Text (mkText (lit "Age") 200 (7003 # 10) 225 (7123 # 10));
   LTRect;
   Text (mkText (lit "Alice") 72 680 105 692);
   Text (mkText (lit "30") 200 680 215 692)].

(** Two text elements on one baseline with the same left edge, and a third
    one below; the same page with the first two in the other order. *)
Definition overlap_a : LTTextContainer := mkText (lit "A") 10 700 20 710.
Definition overlap_b : LTTextContainer := mkText (lit "B") 10 700 20 710.
Definition below_c : LTTextContainer := mkText (lit "C") 10 680 20 690.
Definition page_ab : list Element := [Text overlap_a; Text overlap_b; Text below_c].
Definition page_ba : list Element := [Text overlap_b; Text overlap_a; Text below_c].

(** ** Vocabulary of the further properties *)

(** The tables of [a] followed, in each category, by the tables of [b]. *)
Definition merge_tables (a b : AllTables) : AllTables :=
  mkAllTables (regular a ++ regular b) (tab a ++ tab b)
    (colon a ++ colon b) (other a ++ other b).

(** All the tables of a result. *)
Definition all_frames (t : AllTables) : list DataFrame :=
  regular t ++ tab t ++ colon t ++ other t.

(** What a fresh extractor yields for one block, one page. *)
Definition tables_of_block (block : str) : AllTables :=
  match extract_block init_tables block with
  | Ok t => t
  | Raise _ => init_tables
  end.

Definition tables_of_page (page_layout : list Element) : AllTables :=
  match extract_all_tables init_tables [page_layout] with
  | Ok t => t
  | Raise _ => init_tables
  end.

(** A table with at least one column, at least one data row, and every
    data row of the length of the header. *)
Definition well_formed (df : DataFrame) : Prop :=
  columns df <> [] /\ data df <> []
  /\ Forall (fun row => length row = length (columns df)) (data df).

(** The number of places, along a sequence of text elements that follows
    an element of top edge [p], where the gap test starts a new block. *)
Fixpoint boundaries_from (p : Q) (texts : list LTTextContainer) : nat :=
  match texts with
  | [] => 0
  | e :: rest =>
      (if starts_block (Some p) e then 1 else 0) + boundaries_from (y1 e) rest
  end.

(** [a] is not after [b] in reading order: higher top edge first, then
    smaller [x0]. *)
Definition reading_order (a b : LTTextContainer) : Prop :=
  (y1 b < y1 a)%Q \/ ((y1 a == y1 b)%Q /\ (x0 a <= x0 b)%Q).

(** * Properties *)

(** ** Loops that build a list with [append] *)

Lemma fold_left_append_map {A B : Type} (f : A -> B) (l : list A) (acc : list B) :
  fold_left (fun out x => out ++ [f x]) l acc = acc ++ map f l.
Proof.
  revert acc; induction l as [|x l IH]; intros acc; simpl.
  - now rewrite app_nil_r.
  - rewrite IH, <- app_assoc. reflexivity.
Qed.

Lemma fold_left_append_filter {A B : Type} (p : A -> bool) (f : A -> B)
  (l : list A) (acc : list B) :
  fold_left (fun out x => if p x then out ++ [f x] else out) l acc
  = acc ++ map f (filter p l).
Proof.
  revert acc; induction l as [|x l IH]; intros acc; simpl.
  - now rewrite app_nil_r.
  - rewrite IH. destruct (p x); simpl; [rewrite <- app_assoc|]; reflexivity.
Qed.

(** ** Table Normalizer *)

Lemma create_dataframe_cons (headers : list str) (rows : list (list str)) :
  _create_dataframe (headers :: rows)
  = Ok (mkDataFrame headers (map (clean_row (length headers)) rows)).
Proof.
  unfold _create_dataframe. now rewrite fold_left_append_map.
Qed.

Lemma clean_row_length (n : nat) (row : list str) : length (clean_row n row) = n.
Proof.
  unfold clean_row.
  destruct (n <? length row) eqn:Hlong.
  - apply Nat.ltb_lt in Hlong. rewrite length_firstn. lia.
  - apply Nat.ltb_ge in Hlong.
    destruct (length row <? n) eqn:Hshort.
    + apply Nat.ltb_lt in Hshort. rewrite length_app, repeat_length. lia.
    + apply Nat.ltb_ge in Hshort. lia.
Qed.

Lemma clean_row_cases (n : nat) (row : list str) :
  (n < length row -> clean_row n row = firstn n row)
  /\ (length row < n -> clean_row n row = row ++ repeat (lit "") (n - length row))
  /\ (length row = n -> clean_row n row = row).
Proof.
  unfold clean_row. repeat split; intros H.
  - apply Nat.ltb_lt in H. now rewrite H.
  - assert (Hn : (n <? length row) = false) by (apply Nat.ltb_ge; lia).
    apply Nat.ltb_lt in H. now rewrite Hn, H.
  - assert (Hn : (n <? length row) = false) by (apply Nat.ltb_ge; lia).
    assert (Hm : (length row <? n) = false) by (apply Nat.ltb_ge; lia).
    now rewrite Hn, Hm.
Qed.

Lemma clean_row_exact (n : nat) (row : list str) :
  length row = n -> clean_row n row = row.
Proof. apply clean_row_cases. Qed.

(** Normalizing the table a normalized table spells out changes nothing. *)
Lemma create_dataframe_again (table_data : list (list str)) (df : DataFrame) :
  _create_dataframe table_data = Ok df ->
  _create_dataframe (columns df :: data df) = Ok df.
Proof.
  destruct table_data as [|headers rows]; [discriminate|].
  rewrite create_dataframe_cons. intros [= <-]. cbn [columns data].
  rewrite create_dataframe_cons. do 2 f_equal.
  rewrite map_map. apply map_ext.
  intros row. apply clean_row_exact, clean_row_length.
Qed.

(** C1. A table of at least two rows is always normalized, and in the
    result every data row has exactly as many cells as the header row: a
    longer row is cut to that length, a shorter one is padded on the right
    with empty strings, one of the right length is kept. *)
Theorem C1_rows_have_header_length (table_data : list (list str)) :
  2 <= length table_data ->
  exists df,
    _create_dataframe table_data = Ok df
    /\ columns df = hd [] table_data
    /\ Forall (fun row => length row = length (columns df)) (data df)
    /\ Forall2
         (fun raw row =>
            (length (columns df) < length raw ->
             row = firstn (length (columns df)) raw)
            /\ (length raw < length (columns df) ->
                row = raw ++ repeat (lit "") (length (columns df) - length raw))
            /\ (length raw = length (columns df) -> row = raw))
         (tl table_data) (data df).
Proof.
  intros Hlen. destruct table_data as [|headers rows]; [simpl in Hlen; lia|].
  exists (mkDataFrame headers (map (clean_row (length headers)) rows)).
  rewrite create_dataframe_cons. simpl. repeat split.
  - apply Forall_map, Forall_forall. intros row _. apply clean_row_length.
  - clear Hlen. induction rows as [|row rows IH]; simpl; constructor.
    + apply clean_row_cases.
    + exact IH.
Qed.

Lemma C1_rows_have_header_length_witness :
  exists df,
    _create_dataframe
      [[lit "A"; lit "B"]; [lit "1"; lit "2"; lit "3"]; [lit "4"]] = Ok df
    /\ data df = [[lit "1"; lit "2"]; [lit "4"; lit ""]].
Proof.
  destruct (C1_rows_have_header_length
              [[lit "A"; lit "B"]; [lit "1"; lit "2"; lit "3"]; [lit "4"]])
    as [df [Hdf _]]; [simpl; lia|].
  exists df. split; [exact Hdf|].
  vm_compute in Hdf. injection Hdf as <-. reflexivity.
Defined.

(** C6. Headers of length 2 and a data row of three cells give the first
    two cells; headers of length 3 and a data row of two cells give the two
    cells and one empty string; the header row is the first row of the
    input, unchanged. *)
Theorem C6_truncate_pad_and_headers :
  _create_dataframe [[lit "A"; lit "B"]; [lit "1"; lit "2"; lit "3"]]
  = Ok (mkDataFrame [lit "A"; lit "B"] [[lit "1"; lit "2"]])
  /\ _create_dataframe [[lit "A"; lit "B"; lit "C"]; [lit "1"; lit "2"]]
     = Ok (mkDataFrame [lit "A"; lit "B"; lit "C"] [[lit "1"; lit "2"; lit ""]])
  /\ (forall h1 h2 c1 c2 c3 : str,
        _create_dataframe [[h1; h2]; [c1; c2; c3]]
        = Ok (mkDataFrame [h1; h2] [[c1; c2]]))
  /\ (forall h1 h2 h3 c1 c2 : str,
        _create_dataframe [[h1; h2; h3]; [c1; c2]]
        = Ok (mkDataFrame [h1; h2; h3] [[c1; c2; lit ""]]))
  /\ (forall (headers : list str) (rows : list (list str)),
        exists cleaned_rows,
          _create_dataframe (headers :: rows)
          = Ok (mkDataFrame headers cleaned_rows)
          /\ length cleaned_rows = length rows).
Proof.
  repeat split; try reflexivity.
  intros headers rows. eexists. rewrite create_dataframe_cons.
  split; [reflexivity|]. apply length_map.
Qed.

(** C9. On a table whose rows all have the length of the header row, the
    normalizer returns that header row and those rows: no cell is added,
    dropped or changed. *)
Theorem C9_rectangular_table_unchanged (headers : list str) (rows : list (list str)) :
  Forall (fun row => length row = length headers) rows ->
  _create_dataframe (headers :: rows) = Ok (mkDataFrame headers rows).
Proof.
  intros Hrect. rewrite create_dataframe_cons. do 2 f_equal.
  induction Hrect as [|row rows Hrow _ IH]; simpl; [reflexivity|].
  now rewrite IH, (clean_row_exact _ _ Hrow).
Qed.

Lemma C9_rectangular_table_unchanged_witness :
  _create_dataframe [[lit "A"; lit "B"]; [lit "1"; lit "2"]; [lit "3"; lit "4"]]
  = Ok (mkDataFrame [lit "A"; lit "B"] [[lit "1"; lit "2"]; [lit "3"; lit "4"]]).
Proof.
  apply (C9_rectangular_table_unchanged
           [lit "A"; lit "B"] [[lit "1"; lit "2"]; [lit "3"; lit "4"]]).
  repeat constructor.
Defined.

(** ** Python strings *)

Lemma contains_In (c : char) (s : str) : contains c s = true <-> In c s.
Proof.
  unfold contains. rewrite existsb_exists. split.
  - intros [x [Hx Heq]]. apply N.eqb_eq in Heq. now subst.
  - intros H. exists c. split; [exact H|apply N.eqb_refl].
Qed.

Lemma contains_not_In (c : char) (s : str) : contains c s = false <-> ~ In c s.
Proof.
  rewrite <- contains_In. destruct (contains c s); split; intros H;
    try discriminate; try reflexivity; exfalso; now apply H.
Qed.

Lemma count_pos_In (c : char) (s : str) : 0 < count c s <-> In c s.
Proof.
  induction s as [|x s IH]; simpl.
  - split; [lia|tauto].
  - destruct (N.eqb_spec x c) as [->|Hne].
    + split; [now left|lia].
    + rewrite IH. split; [now right|intros [H|H]; [contradiction|exact H]].
Qed.

Lemma count_app (c : char) (s t : str) : count c (s ++ t) = count c s + count c t.
Proof.
  induction s as [|x s IH]; simpl; [reflexivity|].
  destruct (N.eqb x c); simpl; now rewrite IH.
Qed.

(** *** [split] and [join] *)

Lemma split_not_nil (sep : char) (s : str) : split sep s <> [].
Proof.
  destruct s as [|c s]; simpl; [discriminate|].
  destruct (N.eqb c sep); [discriminate|].
  destruct (split sep s); discriminate.
Qed.

Lemma split_length (sep : char) (s : str) :
  length (split sep s) = S (count sep s).
Proof.
  induction s as [|c s IH]; simpl; [reflexivity|].
  destruct (N.eqb c sep); simpl; [now rewrite IH|].
  destruct (split sep s) as [|cell cells] eqn:E; simpl in *; [discriminate|exact IH].
Qed.

Lemma split_cells_without_sep (sep : char) (s : str) :
  Forall (fun cell => ~ In sep cell) (split sep s).
Proof.
  induction s as [|c s IH]; simpl.
  - constructor; [tauto|constructor].
  - destruct (N.eqb_spec c sep) as [->|Hne].
    + constructor; [tauto|exact IH].
    + destruct (split sep s) as [|cell cells]; simpl.
      * constructor; [|constructor]. intros [H|[]]. now apply Hne.
      * inversion IH as [|? ? Hcell Hcells]; subst.
        constructor; [|exact Hcells].
        intros [H|H]; [now apply Hne|now apply Hcell].
Qed.

Lemma join_cons (sep : char) (p : str) (ps : list str) :
  ps <> [] -> join sep (p :: ps) = p ++ sep :: join sep ps.
Proof. destruct ps; [congruence|reflexivity]. Qed.

Lemma join_split (sep : char) (s : str) : join sep (split sep s) = s.
Proof.
  induction s as [|c s IH]; simpl; [reflexivity|].
  destruct (N.eqb_spec c sep) as [->|Hne].
  - rewrite join_cons by apply split_not_nil. simpl. now rewrite IH.
  - pose proof (split_not_nil sep s) as Hnil.
    destruct (split sep s) as [|cell cells]; [congruence|].
    destruct cells as [|cell' cells]; simpl in *; now rewrite <- IH.
Qed.

Lemma split_without_sep (sep : char) (s : str) :
  ~ In sep s -> split sep s = [s].
Proof.
  induction s as [|c s IH]; simpl; intros Hnot; [reflexivity|].
  destruct (N.eqb_spec c sep) as [->|Hne]; [exfalso; apply Hnot; now left|].
  rewrite IH by tauto. reflexivity.
Qed.

Lemma split_app_sep (sep : char) (s t : str) :
  split sep (s ++ sep :: t) = split sep s ++ split sep t.
Proof.
  induction s as [|c s IH]; simpl.
  - now rewrite N.eqb_refl.
  - destruct (N.eqb c sep); [now rewrite IH|].
    rewrite IH. pose proof (split_not_nil sep s) as Hnil.
    destruct (split sep s) as [|cell cells]; [congruence|reflexivity].
Qed.

(** The lines of a joined block are the lines of its parts, in order. *)
Lemma split_join (sep : char) (parts : list str) :
  parts <> [] ->
  split sep (join sep parts) = concat (map (split sep) parts).
Proof.
  induction parts as [|p ps IH]; [congruence|]. intros _.
  destruct ps as [|p' ps].
  - simpl. now rewrite app_nil_r.
  - rewrite join_cons by discriminate. rewrite split_app_sep, IH by discriminate.
    reflexivity.
Qed.

(** *** [strip] *)

Lemma lstrip_spec (s : str) :
  exists pre, s = pre ++ lstrip s /\ all_space pre
              /\ (forall c rest, lstrip s = c :: rest -> isspace c = false).
Proof.
  induction s as [|c s (pre & Heq & Hpre & Hhead)]; simpl.
  - exists []. repeat split; [constructor|discriminate].
  - destruct (isspace c) eqn:Hc.
    + exists (c :: pre). repeat split.
      * simpl. now rewrite <- Heq.
      * now constructor.
      * exact Hhead.
    + exists []. repeat split; [constructor|].
      intros c' rest [= <- _]. exact Hc.
Qed.

Lemma all_space_rev (s : str) : all_space s -> all_space (rev s).
Proof. unfold all_space. rewrite !Forall_forall. intros H c Hc. apply H, in_rev, Hc. Qed.

(** [strip] removes a whitespace prefix and a whitespace suffix, and what is
    left neither starts nor ends with whitespace. *)
Lemma strip_spec (s : str) :
  exists pre post,
    s = pre ++ strip s ++ post /\ all_space pre /\ all_space post
    /\ (forall c rest, strip s = c :: rest -> isspace c = false)
    /\ (forall c rest, strip s = rest ++ [c] -> isspace c = false).
Proof.
  destruct (lstrip_spec s) as (pre & Hs & Hpre & Hhead).
  destruct (lstrip_spec (rev (lstrip s))) as (tsop & Hr & Htsop & Hlast).
  exists pre, (rev tsop). unfold strip, rstrip.
  assert (Hmid : lstrip s = rev (lstrip (rev (lstrip s))) ++ rev tsop).
  { rewrite <- rev_app_distr, <- Hr. now rewrite rev_involutive. }
  repeat split.
  - now rewrite <- Hmid.
  - exact Hpre.
  - now apply all_space_rev.
  - intros c rest Hc. rewrite Hc in Hmid. apply (Hhead c (rest ++ rev tsop)).
    exact Hmid.
  - intros c rest Hc. apply (Hlast c (rev rest)).
    rewrite <- (rev_involutive (lstrip (rev (lstrip s)))), Hc, rev_app_distr.
    reflexivity.
Qed.

Lemma lstrip_incl (s : str) (c : char) : In c (lstrip s) -> In c s.
Proof.
  induction s as [|x s IH]; simpl; [tauto|].
  destruct (isspace x); simpl; tauto.
Qed.

Lemma strip_incl (s : str) (c : char) : In c (strip s) -> In c s.
Proof.
  unfold strip, rstrip. intros H.
  apply in_rev, lstrip_incl, in_rev, lstrip_incl in H. exact H.
Qed.

(** *** [re.sub(r'\s+', ' ', s)] *)

Lemma sub_ws_in_run (s : str) : sub_ws_from true s = sub_ws_from false (lstrip s).
Proof.
  induction s as [|c s IH]; simpl; [reflexivity|].
  destruct (isspace c) eqn:Hc; [exact IH|]. simpl. now rewrite Hc.
Qed.

Lemma re_sub_ws_collapsed (s : str) : collapsed s (re_sub_ws s).
Proof.
  unfold re_sub_ws.
  assert (Hall : forall n s, length s <= n -> collapsed s (sub_ws_from false s)).
  { induction n as [|n IH]; intros [|c t] Hlen; simpl in *;
      try constructor; try lia.
    destruct (isspace c) eqn:Hc.
    - rewrite sub_ws_in_run.
      destruct (lstrip_spec t) as (pre & Ht & Hpre & Hhead).
      rewrite Ht at 1. change (c :: pre ++ lstrip t) with ((c :: pre) ++ lstrip t).
      apply collapsed_run; [discriminate|now constructor|exact Hhead|].
      apply IH. rewrite Ht, length_app in Hlen. lia.
    - apply collapsed_char; [exact Hc|]. apply IH. lia. }
  now apply (Hall (length s)).
Qed.

Lemma sub_ws_chars (b : bool) (s : str) (c : char) :
  In c (sub_ws_from b s) -> c = SPACE \/ (isspace c = false /\ In c s).
Proof.
  revert b; induction s as [|x s IH]; intros b; simpl; [tauto|].
  destruct (isspace x) eqn:Hx.
  - destruct b; simpl; intros H.
    + destruct (IH _ H) as [?|[? ?]]; auto.
    + destruct H as [H|H]; [now left|].
      destruct (IH _ H) as [?|[? ?]]; auto.
  - simpl. intros [H|H]; [subst; auto|].
    destruct (IH _ H) as [?|[? ?]]; auto.
Qed.

(** After whitespace normalization a line holds no tab. *)
Lemma re_sub_ws_no_tab (s : str) : ~ In TAB (re_sub_ws s).
Proof.
  intros H. apply sub_ws_chars in H. destruct H as [H|[H _]]; discriminate.
Qed.

(** ** Delimiter Classifier *)

(** On a literal block: no line of it has the character (repeated). *)
Ltac no_such_line :=
  let line := fresh "line" in
  let Hin := fresh "Hin" in
  let H := fresh "H" in
  intros [line [Hin H]]; simpl in Hin;
  repeat (destruct Hin as [<-|Hin];
          [first [apply contains_In in H; discriminate | vm_compute in H; lia]|]);
  contradiction.

Lemma any_tab_iff (lines : list str) :
  existsb (contains TAB) lines = true <-> some_line_has TAB lines.
Proof.
  rewrite existsb_exists. unfold some_line_has.
  split; intros [line [Hin H]]; exists line; split; auto; now apply contains_In.
Qed.

Lemma repeated_iff (delim : char) (lines : list str) :
  repeated delim lines = true <-> some_line_repeats delim lines.
Proof.
  unfold repeated, some_line_repeats. rewrite existsb_exists.
  split; intros [line [Hin H]]; exists line; split; auto.
  - apply andb_true_iff in H. destruct H as [_ H]. now apply Nat.ltb_lt in H.
  - apply andb_true_iff. split; [|now apply Nat.ltb_lt].
    apply contains_In, count_pos_In. lia.
Qed.

Lemma any_tab_false (lines : list str) :
  ~ some_line_has TAB lines -> existsb (contains TAB) lines = false.
Proof.
  intros H. destruct (existsb (contains TAB) lines) eqn:E; [|reflexivity].
  exfalso. now apply H, any_tab_iff.
Qed.

Lemma repeated_false (delim : char) (lines : list str) :
  ~ some_line_repeats delim lines -> repeated delim lines = false.
Proof.
  intros H. destruct (repeated delim lines) eqn:E; [|reflexivity].
  exfalso. now apply H, repeated_iff.
Qed.

Lemma choose_tab (lines : list str) :
  some_line_has TAB lines -> choose_delimiter lines = Some (TAB, tab_separated).
Proof.
  intros H. unfold choose_delimiter. apply any_tab_iff in H. now rewrite H.
Qed.

Lemma choose_colon (lines : list str) :
  ~ some_line_has TAB lines -> some_line_repeats COLON lines ->
  choose_delimiter lines = Some (COLON, colon_separated).
Proof.
  intros Htab Hcolon. unfold choose_delimiter.
  rewrite any_tab_false by exact Htab.
  apply repeated_iff in Hcolon. now rewrite Hcolon.
Qed.

Lemma choose_other (lines : list str) :
  ~ some_line_has TAB lines -> ~ some_line_repeats COLON lines ->
  choose_delimiter lines
  = match first_repeated [PIPE; SEMICOLON; COMMA] lines with
    | Some delim => Some (delim, other_delimited)
    | None => None
    end.
Proof.
  intros Htab Hcolon. unfold choose_delimiter.
  now rewrite any_tab_false, repeated_false.
Qed.

Lemma choose_colon_iff (lines : list str) :
  choose_delimiter lines = Some (COLON, colon_separated)
  <-> ~ some_line_has TAB lines /\ some_line_repeats COLON lines.
Proof.
  split; [|intros [Htab Hcolon]; now apply choose_colon].
  unfold choose_delimiter. intros H.
  destruct (existsb (contains TAB) lines) eqn:Etab; [discriminate|].
  destruct (repeated COLON lines) eqn:Ecolon.
  - split; [|now apply repeated_iff].
    intros Htab. apply any_tab_iff in Htab. congruence.
  - destruct (first_repeated _ lines); discriminate.
Qed.

(** C3. The classifier picks at most one delimiter and category, by strict
    priority: tab when some line holds a tab; else colon when some line
    holds more than one colon; else the first of '|', ';', ',' that some
    line holds more than once; else nothing.  A block with both a tab and a
    line of several colons is tab-delimited. *)
Theorem C3_delimiter_priority (lines : list str) :
  (some_line_has TAB lines ->
   choose_delimiter lines = Some (TAB, tab_separated))
  /\ (~ some_line_has TAB lines -> some_line_repeats COLON lines ->
      choose_delimiter lines = Some (COLON, colon_separated))
  /\ (~ some_line_has TAB lines -> ~ some_line_repeats COLON lines ->
      some_line_repeats PIPE lines ->
      choose_delimiter lines = Some (PIPE, other_delimited))
  /\ (~ some_line_has TAB lines -> ~ some_line_repeats COLON lines ->
      ~ some_line_repeats PIPE lines -> some_line_repeats SEMICOLON lines ->
      choose_delimiter lines = Some (SEMICOLON, other_delimited))
  /\ (~ some_line_has TAB lines -> ~ some_line_repeats COLON lines ->
      ~ some_line_repeats PIPE lines -> ~ some_line_repeats SEMICOLON lines ->
      some_line_repeats COMMA lines ->
      choose_delimiter lines = Some (COMMA, other_delimited))
  /\ (~ some_line_has TAB lines -> ~ some_line_repeats COLON lines ->
      ~ some_line_repeats PIPE lines -> ~ some_line_repeats SEMICOLON lines ->
      ~ some_line_repeats COMMA lines ->
      choose_delimiter lines = None)
  /\ (some_line_has TAB lines -> some_line_repeats COLON lines ->
      choose_delimiter lines = Some (TAB, tab_separated)
      /\ choose_delimiter lines <> Some (COLON, colon_separated))
  /\ (forall all_tables block,
        lines = split NL block ->
        extract_block all_tables block
        = match choose_delimiter lines with
          | Some (delimiter, table_type) =>
              _process_delimited_table all_tables lines delimiter table_type
          | None => Ok all_tables
          end).
Proof.
  split; [apply choose_tab|].
  split; [apply choose_colon|].
  split.
  { intros Htab Hcolon Hpipe. rewrite choose_other by assumption. simpl.
    apply repeated_iff in Hpipe. now rewrite Hpipe. }
  split.
  { intros Htab Hcolon Hpipe Hsemi. rewrite choose_other by assumption. simpl.
    rewrite (repeated_false PIPE) by assumption.
    apply repeated_iff in Hsemi. now rewrite Hsemi. }
  split.
  { intros Htab Hcolon Hpipe Hsemi Hcomma. rewrite choose_other by assumption.
    simpl. rewrite (repeated_false PIPE), (repeated_false SEMICOLON) by assumption.
    apply repeated_iff in Hcomma. now rewrite Hcomma. }
  split.
  { intros Htab Hcolon Hpipe Hsemi Hcomma. rewrite choose_other by assumption.
    simpl. now rewrite !repeated_false by assumption. }
  split.
  { intros Htab _. rewrite (choose_tab _ Htab). split; [reflexivity|discriminate]. }
  intros all_tables block ->. reflexivity.
Qed.

Lemma C3_delimiter_priority_witness :
  choose_delimiter [lit "a: b: c"; lit "x" ++ TAB :: lit "y"]
  = Some (TAB, tab_separated)
  /\ choose_delimiter [lit "a; b; c"; lit "x, y, z"]
     = Some (SEMICOLON, other_delimited).
Proof.
  split.
  - destruct (C3_delimiter_priority [lit "a: b: c"; lit "x" ++ TAB :: lit "y"])
      as (Htab & _).
    apply Htab. exists (lit "x" ++ TAB :: lit "y").
    split; [now right; left|now apply contains_In].
  - destruct (C3_delimiter_priority [lit "a; b; c"; lit "x, y, z"])
      as (_ & _ & _ & Hsemi & _).
    apply Hsemi.
    + no_such_line.
    + no_such_line.
    + no_such_line.
    + exists (lit "a; b; c"). split; [now left|vm_compute; lia].
Defined.

(** C7. A block counts as colon-delimited exactly when no line holds a tab
    and some line holds more than one colon.  A block of one-colon lines
    does not qualify; a line with two colons qualifies its block, whatever
    the other (tab-free) lines hold. *)
Theorem C7_colon_rule :
  (forall lines,
     choose_delimiter lines = Some (COLON, colon_separated)
     <-> ~ some_line_has TAB lines /\ some_line_repeats COLON lines)
  /\ (forall lines,
        Forall (fun line => count COLON line <= 1) lines ->
        choose_delimiter lines <> Some (COLON, colon_separated))
  /\ count COLON (lit "Note: see below") = 1
  /\ choose_delimiter (split NL (lit "Note: see below")) = None
  /\ count COLON (lit "Name: John: Smith") = 2
  /\ choose_delimiter (split NL (lit "Name: John: Smith"))
     = Some (COLON, colon_separated)
  /\ choose_delimiter [lit "Note: see below"; lit "Name: John: Smith"]
     = Some (COLON, colon_separated)
  /\ (forall before line after,
        ~ some_line_has TAB (before ++ line :: after) ->
        some_line_repeats COLON (before ++ after) ->
        choose_delimiter (before ++ line :: after)
        = Some (COLON, colon_separated)).
Proof.
  split; [apply choose_colon_iff|].
  split.
  { intros lines Hall H. apply choose_colon_iff in H.
    destruct H as [_ [line [Hin Hcount]]].
    rewrite Forall_forall in Hall. specialize (Hall line Hin). lia. }
  repeat (split; [reflexivity|]).
  intros before line after Htab [l [Hin Hcount]].
  apply choose_colon; [exact Htab|]. exists l. split; [|exact Hcount].
  apply in_app_or in Hin. apply in_or_app. simpl. tauto.
Qed.

Lemma C7_colon_rule_witness :
  choose_delimiter [lit "Note: see below"; lit "Name: John: Smith"]
  = Some (COLON, colon_separated).
Proof.
  destruct C7_colon_rule as (Hiff & _).
  apply Hiff. split.
  - no_such_line.
  - exists (lit "Name: John: Smith"). split; [now right; left|vm_compute; lia].
Defined.

(** ** Loops whose body may raise *)

Lemma for_each_raise {S X : Type} (body : S -> X -> result S) (xs : list X) (e : PyError) :
  fold_left (fun acc x => let* s' := acc in body s' x) xs (Raise e) = Raise e.
Proof. induction xs as [|x xs IH]; simpl; [reflexivity|exact IH]. Qed.

Lemma for_each_cons {S X : Type} (body : S -> X -> result S) (x : X) (xs : list X) (s : S) :
  for_each body (x :: xs) s = let* s' := body s x in for_each body xs s'.
Proof.
  unfold for_each. simpl. destruct (body s x) as [s'|e]; simpl; [reflexivity|].
  apply for_each_raise.
Qed.

Lemma for_each_app {S X : Type} (body : S -> X -> result S) (xs ys : list X) (s : S) :
  for_each body (xs ++ ys) s = let* s' := for_each body xs s in for_each body ys s'.
Proof.
  revert s; induction xs as [|x xs IH]; intros s; [reflexivity|].
  simpl app. rewrite !for_each_cons.
  destruct (body s x) as [s'|e]; simpl; [apply IH|reflexivity].
Qed.

(** A property kept by every round of the loop holds when it ends, and the
    loop does end without raising. *)
Lemma for_each_invariant {S X : Type} (P : S -> Prop) (body : S -> X -> result S)
  (xs : list X) (s : S) :
  P s ->
  (forall s x, In x xs -> P s -> exists s', body s x = Ok s' /\ P s') ->
  exists s', for_each body xs s = Ok s' /\ P s'.
Proof.
  revert s; induction xs as [|x xs IH]; intros s Hs Hbody.
  - exists s. split; [reflexivity|exact Hs].
  - rewrite for_each_cons.
    destruct (Hbody s x (or_introl eq_refl) Hs) as (s1 & -> & Hs1). simpl.
    apply IH; [exact Hs1|]. intros s2 y Hy. apply Hbody. now right.
Qed.

(** ** The guard [len(table_data) > 1] *)

Lemma process_delimited_table_short (all_tables : AllTables) (lines : list str)
  (delimiter : char) (table_type : TableType) :
  length (delimited_table_data lines delimiter) < 2 ->
  _process_delimited_table all_tables lines delimiter table_type = Ok all_tables.
Proof.
  intros Hlen. unfold _process_delimited_table.
  destruct (Nat.ltb_spec 1 (length (delimited_table_data lines delimiter)));
    [lia|reflexivity].
Qed.

Lemma process_delimited_table_long (all_tables : AllTables) (lines : list str)
  (delimiter : char) (table_type : TableType) (headers : list str)
  (rows : list (list str)) :
  delimited_table_data lines delimiter = headers :: rows -> rows <> [] ->
  _process_delimited_table all_tables lines delimiter table_type
  = Ok (append_table all_tables table_type
          (mkDataFrame headers (map (clean_row (length headers)) rows))).
Proof.
  intros Htd Hrows. unfold _process_delimited_table. rewrite Htd.
  destruct rows as [|row rows]; [congruence|].
  rewrite create_dataframe_cons. reflexivity.
Qed.

Lemma extract_regular_tables_short (all_tables : AllTables) (elements : list Element) :
  length (regular_table_data elements) < 2 ->
  _extract_regular_tables all_tables elements = Ok all_tables.
Proof.
  intros Hlen. unfold _extract_regular_tables.
  destruct (Nat.ltb_spec 1 (length (regular_table_data elements)));
    [lia|reflexivity].
Qed.

Lemma extract_regular_tables_long (all_tables : AllTables) (elements : list Element)
  (headers : list str) (rows : list (list str)) :
  regular_table_data elements = headers :: rows -> rows <> [] ->
  _extract_regular_tables all_tables elements
  = Ok (append_table all_tables regular_tables
          (mkDataFrame headers (map (clean_row (length headers)) rows))).
Proof.
  intros Htd Hrows. unfold _extract_regular_tables. rewrite Htd.
  destruct rows as [|row rows]; [congruence|].
  rewrite create_dataframe_cons. reflexivity.
Qed.

(** Either method leaves the tables alone or appends one table to one
    category; it does not raise. *)
Lemma process_delimited_table_cases (all_tables : AllTables) (lines : list str)
  (delimiter : char) (table_type : TableType) :
  _process_delimited_table all_tables lines delimiter table_type = Ok all_tables
  \/ exists headers rows,
       delimited_table_data lines delimiter = headers :: rows
       /\ _process_delimited_table all_tables lines delimiter table_type
          = Ok (append_table all_tables table_type
                  (mkDataFrame headers (map (clean_row (length headers)) rows))).
Proof.
  destruct (delimited_table_data lines delimiter) as [|headers [|row rows]] eqn:Htd.
  - left. apply process_delimited_table_short. rewrite Htd. simpl. lia.
  - left. apply process_delimited_table_short. rewrite Htd. simpl. lia.
  - right. exists headers, (row :: rows). split; [reflexivity|].
    now apply process_delimited_table_long.
Qed.

Lemma extract_regular_tables_cases (all_tables : AllTables) (elements : list Element) :
  _extract_regular_tables all_tables elements = Ok all_tables
  \/ exists df,
       _extract_regular_tables all_tables elements
       = Ok (append_table all_tables regular_tables df).
Proof.
  destruct (regular_table_data elements) as [|headers [|row rows]] eqn:Htd.
  - left. apply extract_regular_tables_short. rewrite Htd. simpl. lia.
  - left. apply extract_regular_tables_short. rewrite Htd. simpl. lia.
  - right. eexists. now apply (extract_regular_tables_long _ _ headers (row :: rows)).
Qed.

(** ** Rows of a delimited block *)

Lemma delimited_table_data_rows (lines : list str) (delimiter : char) :
  delimited_table_data lines delimiter
  = map (row_of_line delimiter) (filter (contains delimiter) lines).
Proof.
  unfold delimited_table_data.
  rewrite (fold_left_append_filter (contains delimiter) (row_of_line delimiter)).
  reflexivity.
Qed.



(** ** Tab-delimited blocks *)

Lemma row_of_line_tab (line : str) :
  row_of_line TAB line = [strip (re_sub_ws (strip line))].
Proof.
  unfold row_of_line. now rewrite split_without_sep by apply re_sub_ws_no_tab.
Qed.

Lemma tab_rows_one_cell (lines : list str) :
  Forall (fun row => length row = 1) (delimited_table_data lines TAB).
Proof.
  rewrite delimited_table_data_rows. apply Forall_map, Forall_forall.
  intros line _. now rewrite row_of_line_tab.
Qed.

Lemma first_repeated_In (delims : list char) (lines : list str) (delim : char) :
  first_repeated delims lines = Some delim -> In delim delims.
Proof.
  induction delims as [|d delims IH]; simpl; [discriminate|].
  destruct (repeated d lines); [intros [= ->]; now left|].
  intros H. right. now apply IH.
Qed.

Lemma choose_delimiter_tab_type (lines : list str) (delimiter : char)
  (table_type : TableType) :
  choose_delimiter lines = Some (delimiter, table_type) ->
  (table_type = tab_separated <-> delimiter = TAB).
Proof.
  unfold choose_delimiter.
  destruct (existsb (contains TAB) lines); [intros [= <- <-]; tauto|].
  destruct (repeated COLON lines); [intros [= <- <-]; split; discriminate|].
  destruct (first_repeated _ lines) as [d|] eqn:Hd; [|discriminate].
  intros [= <- <-]. apply first_repeated_In in Hd.
  split; [discriminate|]. intros ->. simpl in Hd.
  destruct Hd as [H|[H|[H|[]]]]; discriminate.
Qed.

Lemma clean_row_one_column (headers : list str) (rows : list (list str)) :
  length headers = 1 ->
  one_column (mkDataFrame headers (map (clean_row (length headers)) rows)).
Proof.
  intros H. split; [exact H|]. simpl. apply Forall_map, Forall_forall.
  intros row _. rewrite clean_row_length. exact H.
Qed.

Lemma extract_block_tab_invariant (all_tables : AllTables) (block : str) :
  Forall one_column (tab all_tables) ->
  exists all_tables',
    extract_block all_tables block = Ok all_tables'
    /\ Forall one_column (tab all_tables').
Proof.
  intros Hinv. unfold extract_block.
  destruct (choose_delimiter (split NL block)) as [[delimiter table_type]|] eqn:Hc;
    [|now exists all_tables].
  apply choose_delimiter_tab_type in Hc.
  destruct (process_delimited_table_cases all_tables (split NL block)
              delimiter table_type) as [->|(headers & rows & Htd & ->)];
    [now exists all_tables|].
  eexists. split; [reflexivity|].
  destruct table_type; simpl; try exact Hinv.
  apply Forall_app. split; [exact Hinv|]. constructor; [|constructor].
  apply clean_row_one_column.
  assert (delimiter = TAB) as -> by now apply Hc.
  pose proof (tab_rows_one_cell (split NL block)) as Hrows.
  rewrite Htd in Hrows. now inversion Hrows.
Qed.

Lemma process_page_tab_invariant (all_tables : AllTables) (elements : list Element) :
  Forall one_column (tab all_tables) ->
  exists all_tables',
    _process_page_elements all_tables elements = Ok all_tables'
    /\ Forall one_column (tab all_tables').
Proof.
  intros Hinv. unfold _process_page_elements, _extract_delimited_tables.
  assert (Hreg : exists st, _extract_regular_tables all_tables elements = Ok st
                            /\ Forall one_column (tab st)).
  { destruct (extract_regular_tables_cases all_tables elements) as [->|[df ->]];
      eexists; split; try reflexivity; exact Hinv. }
  destruct Hreg as (st & -> & Hst). simpl.
  apply for_each_invariant; [exact Hst|].
  intros s block _. apply extract_block_tab_invariant.
Qed.

Lemma extract_all_tables_tab_invariant (all_tables : AllTables)
  (pages : list (list Element)) :
  Forall one_column (tab all_tables) ->
  exists all_tables',
    extract_all_tables all_tables pages = Ok all_tables'
    /\ Forall one_column (tab all_tables').
Proof.
  intros Hinv. unfold extract_all_tables.
  apply for_each_invariant; [exact Hinv|].
  intros s page _. apply process_page_tab_invariant.
Qed.

(** C10. Whitespace normalization runs before the split, and a tab is
    whitespace: every row of a tab-delimited block has exactly one cell, so
    every table of the tab category has exactly one column. *)
Theorem C10_tab_tables_have_one_column :
  (forall line, ~ In TAB (re_sub_ws (strip line)))
  /\ (forall lines,
        Forall (fun row => length row = 1) (delimited_table_data lines TAB))
  /\ (forall lines delimiter table_type,
        choose_delimiter lines = Some (delimiter, table_type) ->
        (table_type = tab_separated <-> delimiter = TAB))
  /\ (forall pages,
        exists all_tables,
          extract_all_tables init_tables pages = Ok all_tables
          /\ Forall one_column (tab all_tables)).
Proof.
  split; [intros line; apply re_sub_ws_no_tab|].
  split; [apply tab_rows_one_cell|].
  split; [apply choose_delimiter_tab_type|].
  intros pages. apply extract_all_tables_tab_invariant. constructor.
Qed.

Lemma C10_tab_tables_have_one_column_witness :
  choose_delimiter [lit "a" ++ TAB :: lit "b"; lit "c" ++ TAB :: lit "d"]
  = Some (TAB, tab_separated)
  /\ (tab_separated = tab_separated <-> TAB = TAB).
Proof.
  split; [reflexivity|].
  destruct C10_tab_tables_have_one_column as (_ & _ & Htype & _).
  apply (Htype [lit "a" ++ TAB :: lit "b"; lit "c" ++ TAB :: lit "d"]
           TAB tab_separated).
  reflexivity.
Defined.

(** ** Pages without text, blocks without delimiter, short tables *)

Lemma group_rows_texts (elements : list Element) :
  group_rows elements = rows_of_texts (text_elements elements).
Proof.
  unfold group_rows, rows_of_texts. generalize (@nil (Z * list LTTextContainer)).
  induction elements as [|element elements IH]; intros rows; [reflexivity|].
  destruct element; simpl; apply IH.
Qed.

Lemma text_elements_kept (page_layout : list Element) :
  text_elements (filter is_kept page_layout) = text_elements page_layout.
Proof.
  induction page_layout as [|element rest IH]; [reflexivity|].
  destruct element; simpl; rewrite ?IH; reflexivity.
Qed.

Lemma process_page_without_text (all_tables : AllTables) (elements : list Element) :
  text_elements elements = [] ->
  _process_page_elements all_tables elements = Ok all_tables.
Proof.
  intros Hnone. unfold _process_page_elements.
  rewrite extract_regular_tables_short.
  - rewrite Hnone. reflexivity.
  - unfold regular_table_data, sorted_rows.
    rewrite group_rows_texts, Hnone. simpl. lia.
Qed.

Lemma choose_none (lines : list str) :
  no_delimiter_rule lines -> choose_delimiter lines = None.
Proof.
  intros (Htab & Hcolon & Hpipe & Hsemi & Hcomma).
  rewrite choose_other by assumption. simpl.
  now rewrite !repeated_false by assumption.
Qed.

Lemma extract_block_ok (all_tables : AllTables) (block : str) :
  exists all_tables', extract_block all_tables block = Ok all_tables'.
Proof.
  unfold extract_block.
  destruct (choose_delimiter (split NL block)) as [[delimiter table_type]|];
    [|now exists all_tables].
  destruct (process_delimited_table_cases all_tables (split NL block)
              delimiter table_type) as [->|(headers & rows & _ & ->)];
    eexists; reflexivity.
Qed.

Lemma process_page_ok (all_tables : AllTables) (elements : list Element) :
  exists all_tables', _process_page_elements all_tables elements = Ok all_tables'.
Proof.
  unfold _process_page_elements, _extract_delimited_tables.
  destruct (extract_regular_tables_cases all_tables elements) as [->|[df ->]]; simpl.
  - destruct (for_each_invariant (fun _ => True) extract_block
                (_group_text_blocks (text_elements elements)) all_tables I)
      as (s & Hs & _); [|now exists s].
    intros s block _ _. destruct (extract_block_ok s block) as [s' Hs'].
    now exists s'.
  - destruct (for_each_invariant (fun _ => True) extract_block
                (_group_text_blocks (text_elements elements))
                (append_table all_tables regular_tables df) I)
      as (s & Hs & _); [|now exists s].
    intros s block _ _. destruct (extract_block_ok s block) as [s' Hs'].
    now exists s'.
Qed.

Lemma extract_all_tables_ok (all_tables : AllTables) (pages : list (list Element)) :
  exists all_tables', extract_all_tables all_tables pages = Ok all_tables'.
Proof.
  unfold extract_all_tables.
  destruct (for_each_invariant (fun _ => True)
              (fun all_tables page_layout =>
                 _process_page_elements all_tables (filter is_kept page_layout))
              pages all_tables I) as (s & Hs & _); [|now exists s].
  intros s page _ _. destruct (process_page_ok s (filter is_kept page)) as [s' Hs'].
  now exists s'.
Qed.

(** C8. Extraction never raises.  A page without text elements, a block
    that meets no delimiter rule and a candidate table of fewer than two
    rows leave the tables as they were; a document gives the same tables
    with or without a page that has no text. *)
Theorem C8_degenerate_content_is_skipped :
  (forall all_tables pages,
     exists all_tables', extract_all_tables all_tables pages = Ok all_tables')
  /\ (forall all_tables elements,
        text_elements elements = [] ->
        _process_page_elements all_tables elements = Ok all_tables)
  /\ (forall all_tables before page after,
        text_elements page = [] ->
        extract_all_tables all_tables (before ++ page :: after)
        = extract_all_tables all_tables (before ++ after))
  /\ (forall all_tables block,
        no_delimiter_rule (split NL block) ->
        extract_block all_tables block = Ok all_tables)
  /\ (forall all_tables lines delimiter table_type,
        length (delimited_table_data lines delimiter) < 2 ->
        _process_delimited_table all_tables lines delimiter table_type
        = Ok all_tables)
  /\ (forall all_tables elements,
        length (regular_table_data elements) < 2 ->
        _extract_regular_tables all_tables elements = Ok all_tables).
Proof.
  split; [apply extract_all_tables_ok|].
  split; [apply process_page_without_text|].
  split.
  { intros all_tables before page after Hnone. unfold extract_all_tables.
    rewrite !for_each_app.
    destruct (for_each _ before all_tables) as [s|e]; simpl; [|reflexivity].
    rewrite for_each_cons, process_page_without_text; [reflexivity|].
    now rewrite text_elements_kept. }
  split.
  { intros all_tables block Hnone. unfold extract_block.
    now rewrite choose_none. }
  split; [apply process_delimited_table_short|apply extract_regular_tables_short].
Qed.

Lemma C8_degenerate_content_is_skipped_witness :
  _process_page_elements init_tables [LTRect; LTLine; LTFigure] = Ok init_tables
  /\ extract_block init_tables (lit "Note: see below") = Ok init_tables
  /\ _process_delimited_table init_tables [lit "a: b: c"; lit "plain"] COLON
       colon_separated = Ok init_tables.
Proof.
  destruct C8_degenerate_content_is_skipped as (_ & Hpage & _ & Hblock & Hshort & _).
  split; [apply Hpage; reflexivity|].
  split; [|apply Hshort; vm_compute; lia].
  apply Hblock. unfold no_delimiter_rule.
  repeat split; no_such_line.
Defined.

(** ** Stable sorting *)

Section SortingFacts.
Context {A : Type} (lt : A -> A -> bool).

Lemma insert_perm (a : A) (l : list A) : Permutation (a :: l) (insert lt a l).
Proof.
  induction l as [|b l IH]; simpl; [reflexivity|].
  destruct (lt b a); [|reflexivity].
  rewrite perm_swap. now apply perm_skip.
Qed.

Lemma sorted_perm (l : list A) : Permutation l (sorted lt l).
Proof.
  induction l as [|a l IH]; simpl; [reflexivity|].
  rewrite <- insert_perm. now apply perm_skip.
Qed.

(** Stability: elements that the key does not tell apart keep their order. *)
Lemma insert_stable (p : A -> bool) (a : A) (l : list A) :
  (forall b, In b l -> p a = true -> p b = true -> lt b a = false) ->
  filter p (insert lt a l) = filter p (a :: l).
Proof.
  induction l as [|b l IH]; intros Htie; [reflexivity|].
  simpl insert. destruct (lt b a) eqn:Hba; [|reflexivity].
  simpl. rewrite IH by (intros c Hc; apply Htie; now right). simpl.
  destruct (p a) eqn:Hpa; [|reflexivity].
  destruct (p b) eqn:Hpb; [|reflexivity].
  rewrite (Htie b (or_introl eq_refl) eq_refl Hpb) in Hba. discriminate.
Qed.

Lemma sorted_stable (p : A -> bool) (l : list A) :
  (forall a b, p a = true -> p b = true -> lt b a = false) ->
  filter p (sorted lt l) = filter p l.
Proof.
  intros Htie. induction l as [|a l IH]; [reflexivity|].
  simpl sorted. rewrite insert_stable by (intros b _; apply Htie).
  simpl. now rewrite IH.
Qed.

Hypothesis lt_asym : forall a b, lt a b = true -> lt b a = false.
Hypothesis lt_negtrans :
  forall a b c, lt a b = false -> lt b c = false -> lt a c = false.

Lemma insert_ascending (a : A) (l : list A) :
  StronglySorted (fun x y => lt y x = false) l ->
  StronglySorted (fun x y => lt y x = false) (insert lt a l).
Proof.
  induction l as [|b l IH]; simpl; intros Hl.
  - repeat constructor.
  - apply StronglySorted_inv in Hl. destruct Hl as [Hl Hb].
    destruct (lt b a) eqn:Hba.
    + constructor; [now apply IH|].
      rewrite <- insert_perm. constructor; [now apply lt_asym|exact Hb].
    + constructor; [now constructor|].
      constructor; [exact Hba|].
      rewrite Forall_forall in *. intros x Hx.
      apply (lt_negtrans x b a); [now apply Hb|exact Hba].
Qed.

Lemma sorted_ascending (l : list A) :
  StronglySorted (fun x y => lt y x = false) (sorted lt l).
Proof.
  induction l as [|a l IH]; simpl; [constructor|now apply insert_ascending].
Qed.

End SortingFacts.

Section SortedUnique.
Context {A : Type} (R : A -> A -> Prop).
Hypothesis R_asym : forall a b, R a b -> R b a -> False.

(** A list has at most one arrangement that is strictly sorted. *)
Lemma strongly_sorted_unique (l1 l2 : list A) :
  StronglySorted R l1 -> StronglySorted R l2 -> Permutation l1 l2 -> l1 = l2.
Proof.
  revert l2; induction l1 as [|a l1 IH]; intros l2 H1 H2 Hperm.
  - apply Permutation_nil in Hperm. now subst.
  - destruct l2 as [|b l2];
      [apply Permutation_sym, Permutation_nil in Hperm; discriminate|].
    apply StronglySorted_inv in H1, H2.
    destruct H1 as [H1 Ha], H2 as [H2 Hb].
    rewrite Forall_forall in Ha, Hb.
    assert (Hab : a = b).
    { assert (Hin_a : In a (b :: l2))
        by (apply (Permutation_in _ Hperm); now left).
      assert (Hin_b : In b (a :: l1))
        by (apply (Permutation_in _ (Permutation_sym Hperm)); now left).
      destruct Hin_a as [Heq|Hin_a]; [now symmetry|].
      destruct Hin_b as [Heq|Hin_b]; [exact Heq|].
      exfalso. apply (R_asym a b); [now apply Ha|now apply Hb]. }
    subst b. f_equal. apply IH; [exact H1|exact H2|].
    now apply Permutation_cons_inv in Hperm.
Qed.

End SortedUnique.

Lemma strongly_sorted_map {A B : Type} (f : A -> B) (R : B -> B -> Prop) (l : list A) :
  StronglySorted (fun a b => R (f a) (f b)) l -> StronglySorted R (map f l).
Proof.
  induction 1 as [|a l _ IH Ha]; simpl; constructor; [exact IH|].
  now apply Forall_map.
Qed.

Lemma strongly_sorted_weaken {A : Type} (R R' : A -> A -> Prop) (l : list A) :
  (forall a b, In a l -> In b l -> a <> b -> R a b -> R' a b) ->
  NoDup l -> StronglySorted R l -> StronglySorted R' l.
Proof.
  intros Himp Hnodup Hsorted.
  induction Hsorted as [|a l _ IH Ha]; constructor.
  - apply IH; [|now inversion Hnodup].
    intros x y Hx Hy. apply Himp; now right.
  - inversion Hnodup as [|? ? Hnotin _]; subst.
    rewrite Forall_forall in *. intros b Hb.
    apply Himp; [now left|now right| |now apply Ha].
    intros ->. contradiction.
Qed.

Lemma strongly_sorted_impl {A : Type} (R R' : A -> A -> Prop) (l : list A) :
  (forall a b, R a b -> R' a b) -> StronglySorted R l -> StronglySorted R' l.
Proof.
  intros Himp. induction 1 as [|a l _ IH Ha]; constructor; [exact IH|].
  eapply Forall_impl; [|exact Ha]. apply Himp.
Qed.

Lemma filter_perm {A : Type} (p : A -> bool) (l1 l2 : list A) :
  Permutation l1 l2 -> Permutation (filter p l1) (filter p l2).
Proof.
  induction 1 as [|x l1 l2 _ IH|x y l|l1 l2 l3 _ IH1 _ IH2]; simpl.
  - constructor.
  - destruct (p x); [now constructor|exact IH].
  - destruct (p x), (p y); try reflexivity. apply perm_swap.
  - now transitivity (filter p l2).
Qed.

Lemma Qltb_lt (a b : Q) : Qltb a b = true <-> (a < b)%Q.
Proof.
  unfold Qltb. rewrite Qlt_alt. destruct (a ?= b)%Q; split; congruence.
Qed.

Lemma Qltb_ge (a b : Q) : Qltb a b = false <-> (b <= a)%Q.
Proof.
  split; intros H.
  - apply Qnot_lt_le. intros Hlt. apply Qltb_lt in Hlt. congruence.
  - destruct (Qltb a b) eqn:E; [|reflexivity].
    apply Qltb_lt in E. exfalso. now apply (Qle_not_lt _ _ H).
Qed.

(** ** The dictionary of rows *)

Lemma dict_get_append {V : Type} (rows : list (Z * list V)) (y k : Z) (e : V) :
  dict_get (dict_append rows y e) k
  = if Z.eqb k y then dict_get rows y ++ [e] else dict_get rows k.
Proof.
  unfold dict_get. induction rows as [|[k0 v] rows IH]; simpl.
  - rewrite (Z.eqb_sym y k). now destruct (Z.eqb k y).
  - destruct (Z.eqb_spec k0 y) as [->|Hne]; simpl.
    + rewrite (Z.eqb_sym y k). destruct (Z.eqb_spec k y) as [->|Hk]; reflexivity.
    + destruct (Z.eqb_spec k0 k) as [->|Hk0].
      * destruct (Z.eqb_spec k y); [congruence|reflexivity].
      * exact IH.
Qed.

Lemma dict_append_keys {V : Type} (rows : list (Z * list V)) (y k : Z) (e : V) :
  In k (map fst (dict_append rows y e)) <-> k = y \/ In k (map fst rows).
Proof.
  induction rows as [|[k0 v] rows IH]; simpl.
  - intuition.
  - destruct (Z.eqb_spec k0 y) as [->|Hne]; simpl; [intuition|].
    rewrite IH. intuition.
Qed.

Lemma dict_append_NoDup {V : Type} (rows : list (Z * list V)) (y : Z) (e : V) :
  NoDup (map fst rows) -> NoDup (map fst (dict_append rows y e)).
Proof.
  induction rows as [|[k0 v] rows IH]; simpl; intros Hnodup.
  - repeat constructor. tauto.
  - destruct (Z.eqb_spec k0 y) as [->|Hne]; simpl; [exact Hnodup|].
    inversion Hnodup as [|? ? Hnotin Hrest]; subst.
    constructor; [|now apply IH].
    rewrite dict_append_keys. intros [Heq|Hin]; [congruence|contradiction].
Qed.

Lemma dict_append_length {V : Type} (rows : list (Z * list V)) (y : Z) (e : V) :
  ~ In y (map fst rows) -> length (dict_append rows y e) = S (length rows).
Proof.
  induction rows as [|[k0 v] rows IH]; simpl; intros Hnotin; [reflexivity|].
  destruct (Z.eqb_spec k0 y) as [->|Hne]; [tauto|].
  simpl. rewrite IH; tauto.
Qed.

Lemma dict_get_In {V : Type} (rows : list (Z * list V)) (k : Z) (v : list V) :
  NoDup (map fst rows) -> In (k, v) rows -> dict_get rows k = v.
Proof.
  unfold dict_get. induction rows as [|[k0 v0] rows IH]; simpl; [tauto|].
  intros Hnodup [[= -> ->]|Hin].
  - now rewrite Z.eqb_refl.
  - inversion Hnodup as [|? ? Hnotin Hrest]; subst.
    destruct (Z.eqb_spec k0 k) as [->|Hne]; [|now apply IH].
    exfalso. apply Hnotin. change k with (fst (k, v)). now apply in_map.
Qed.

Lemma rows_of_texts_snoc (texts : list LTTextContainer) (e : LTTextContainer) :
  rows_of_texts (texts ++ [e]) = dict_append (rows_of_texts texts) (row_key e) e.
Proof. unfold rows_of_texts. now rewrite fold_left_app. Qed.

Lemma rows_of_texts_get (texts : list LTTextContainer) (k : Z) :
  dict_get (rows_of_texts texts) k = filter (in_row k) texts.
Proof.
  induction texts as [|e texts IH] using rev_ind; [reflexivity|].
  rewrite rows_of_texts_snoc, dict_get_append, filter_app. simpl. unfold in_row at 2.
  rewrite (Z.eqb_sym (row_key e) k).
  destruct (Z.eqb_spec k (row_key e)) as [->|Hne].
  - now rewrite <- IH.
  - now rewrite app_nil_r.
Qed.

Lemma rows_of_texts_keys (texts : list LTTextContainer) (k : Z) :
  In k (map fst (rows_of_texts texts)) <-> In k (map row_key texts).
Proof.
  induction texts as [|e texts IH] using rev_ind; [reflexivity|].
  rewrite rows_of_texts_snoc, dict_append_keys, map_app, in_app_iff, IH.
  simpl. intuition.
Qed.

Lemma rows_of_texts_NoDup (texts : list LTTextContainer) :
  NoDup (map fst (rows_of_texts texts)).
Proof.
  induction texts as [|e texts IH] using rev_ind; [constructor|].
  rewrite rows_of_texts_snoc. now apply dict_append_NoDup.
Qed.

Lemma rows_of_texts_length (texts : list LTTextContainer) :
  NoDup (map row_key texts) -> length (rows_of_texts texts) = length texts.
Proof.
  induction texts as [|e texts IH] using rev_ind; [reflexivity|].
  rewrite map_app. intros Hnodup. simpl in Hnodup.
  apply NoDup_remove in Hnodup. rewrite app_nil_r in Hnodup.
  destruct Hnodup as [Hnodup Hnotin].
  rewrite rows_of_texts_snoc, dict_append_length, length_app, IH; simpl;
    [lia|exact Hnodup|].
  now rewrite rows_of_texts_keys.
Qed.

(** Every item of the dictionary holds the elements of its key, in input order. *)
Lemma rows_of_texts_item (texts : list LTTextContainer) (k : Z)
  (v : list LTTextContainer) :
  In (k, v) (rows_of_texts texts) -> v = filter (in_row k) texts.
Proof.
  intros Hin. rewrite <- rows_of_texts_get. symmetry.
  apply dict_get_In; [apply rows_of_texts_NoDup|exact Hin].
Qed.

Lemma items_by_key {V : Type} (f : Z -> V) (items : list (Z * V)) :
  (forall k v, In (k, v) items -> v = f k) ->
  items = map (fun k => (k, f k)) (map fst items).
Proof.
  induction items as [|[k v] items IH]; simpl; intros Hall; [reflexivity|].
  rewrite (Hall k v) by now left. f_equal. apply IH.
  intros k' v' Hin. apply Hall. now right.
Qed.

(** ** Row Clusterer *)

Lemma text_elements_perm (elements1 elements2 : list Element) :
  Permutation elements1 elements2 ->
  Permutation (text_elements elements1) (text_elements elements2).
Proof.
  induction 1 as [|x l1 l2 _ IH|x y l|l1 l2 l3 _ IH1 _ IH2]; simpl.
  - constructor.
  - destruct x; [now constructor|exact IH..].
  - destruct x, y; try reflexivity. apply perm_swap.
  - now transitivity (text_elements l2).
Qed.

Lemma sorted_rows_perm (elements : list Element) :
  Permutation (rows_of_texts (text_elements elements)) (sorted_rows elements).
Proof. unfold sorted_rows. rewrite group_rows_texts. apply sorted_perm. Qed.

Lemma sorted_rows_NoDup (elements : list Element) :
  NoDup (map fst (sorted_rows elements)).
Proof.
  eapply Permutation_NoDup; [|apply rows_of_texts_NoDup].
  apply Permutation_map, sorted_rows_perm.
Qed.

Lemma sorted_rows_keys (elements : list Element) (k : Z) :
  In k (map fst (sorted_rows elements))
  <-> In k (map row_key (text_elements elements)).
Proof.
  rewrite <- rows_of_texts_keys. split; apply Permutation_in.
  - apply Permutation_sym, Permutation_map, sorted_rows_perm.
  - apply Permutation_map, sorted_rows_perm.
Qed.

Lemma sorted_rows_item (elements : list Element) (k : Z) (v : list LTTextContainer) :
  In (k, v) (sorted_rows elements) ->
  v = filter (in_row k) (text_elements elements).
Proof.
  intros Hin. apply rows_of_texts_item.
  eapply Permutation_in; [apply Permutation_sym, sorted_rows_perm|exact Hin].
Qed.

(** The row keys come out strictly descending. *)
Lemma sorted_rows_descending (elements : list Element) :
  StronglySorted (fun k k' => (k' < k)%Z) (map fst (sorted_rows elements)).
Proof.
  apply (strongly_sorted_weaken (fun k k' => (k' <= k)%Z)).
  - intros a b _ _ Hne Hle. lia.
  - apply sorted_rows_NoDup.
  - apply strongly_sorted_map. unfold sorted_rows.
    eapply strongly_sorted_impl; [|apply sorted_ascending].
    + intros a b Hb. simpl in Hb. apply Z.ltb_ge in Hb. lia.
    + intros a b H. apply Z.ltb_lt in H. apply Z.ltb_ge. lia.
    + intros a b c H1 H2. apply Z.ltb_ge in H1, H2. apply Z.ltb_ge. lia.
Qed.

Lemma sorted_rows_by_key (elements : list Element) :
  sorted_rows elements
  = map (fun k => (k, filter (in_row k) (text_elements elements)))
      (map fst (sorted_rows elements)).
Proof. apply items_by_key. intros k v. apply sorted_rows_item. Qed.

Lemma clustered_rows_by_key (elements : list Element) :
  clustered_rows elements
  = map (fun k => (k, sort_row (filter (in_row k) (text_elements elements))))
      (map fst (sorted_rows elements)).
Proof.
  unfold clustered_rows. rewrite sorted_rows_by_key at 1.
  rewrite map_map. reflexivity.
Qed.

Lemma clustered_rows_keys (elements : list Element) :
  map fst (clustered_rows elements) = map fst (sorted_rows elements).
Proof. unfold clustered_rows. rewrite map_map. reflexivity. Qed.

Lemma regular_table_data_clustered (elements : list Element) :
  regular_table_data elements
  = map (fun item => map cell (snd item)) (clustered_rows elements).
Proof.
  unfold regular_table_data, clustered_rows.
  rewrite (fold_left_append_map (fun item => map cell (sort_row (snd item)))).
  rewrite map_map. reflexivity.
Qed.

(** The keys and their order depend on the set of elements only. *)
Lemma sorted_rows_keys_perm (elements1 elements2 : list Element) :
  Permutation elements1 elements2 ->
  map fst (sorted_rows elements1) = map fst (sorted_rows elements2).
Proof.
  intros Hperm.
  apply (strongly_sorted_unique (fun k k' => (k' < k)%Z));
    [intros a b; lia|apply sorted_rows_descending..|].
  apply NoDup_Permutation; [apply sorted_rows_NoDup..|].
  intros k. rewrite !sorted_rows_keys.
  apply text_elements_perm, (Permutation_map row_key) in Hperm.
  split; apply Permutation_in; [exact Hperm|now apply Permutation_sym].
Qed.

(** Within a row the elements come out ascending by [x0]. *)
Lemma sort_row_ascending (row_elements : list LTTextContainer) :
  StronglySorted (fun a b => (x0 a <= x0 b)%Q) (sort_row row_elements).
Proof.
  unfold sort_row.
  eapply strongly_sorted_impl; [|apply sorted_ascending].
  - intros a b Hb. simpl in Hb. now apply Qltb_ge in Hb.
  - intros a b H. apply Qltb_lt in H. apply Qltb_ge. now apply Qlt_le_weak.
  - intros a b c H1 H2. apply Qltb_ge in H1, H2. apply Qltb_ge.
    now apply (Qle_trans _ (x0 b)).
Qed.

Lemma distinct_x0_NoDup (texts : list LTTextContainer) :
  distinct_x0_in_rows texts -> NoDup texts.
Proof.
  unfold distinct_x0_in_rows. induction 1 as [|a l Ha _ IH]; constructor; [|exact IH].
  intros Hin. rewrite Forall_forall in Ha.
  apply (Ha a Hin); reflexivity.
Qed.

Lemma distinct_x0_In (texts : list LTTextContainer) (a b : LTTextContainer) :
  distinct_x0_in_rows texts -> In a texts -> In b texts -> a <> b ->
  row_key a = row_key b -> ~ (x0 a == x0 b)%Q.
Proof.
  intros Hdist Ha Hb Hne Hkey Heq.
  destruct (ForallOrdPairs_In Hdist a b Ha Hb) as [H|[H|H]].
  - contradiction.
  - now apply H.
  - apply H; [now symmetry|now symmetry].
Qed.

Lemma distinct_x0_perm (texts1 texts2 : list LTTextContainer) :
  Permutation texts1 texts2 ->
  distinct_x0_in_rows texts1 ->
  NoDup texts2
  /\ (forall a b, In a texts2 -> In b texts2 -> a <> b ->
                  row_key a = row_key b -> ~ (x0 a == x0 b)%Q).
Proof.
  intros Hperm Hdist. split.
  - eapply Permutation_NoDup; [exact Hperm|now apply distinct_x0_NoDup].
  - intros a b Ha Hb. apply (distinct_x0_In texts1); [exact Hdist|..];
      eapply Permutation_in; try apply Permutation_sym; eassumption.
Qed.

(** Elements of equal [x0] stay in the order of the input. *)
Lemma sort_row_stable (row_elements : list LTTextContainer) (x : Q) :
  filter (fun e => Qeq_bool (x0 e) x) (sort_row row_elements)
  = filter (fun e => Qeq_bool (x0 e) x) row_elements.
Proof.
  apply sorted_stable. intros a b Ha Hb.
  apply Qeq_bool_iff in Ha, Hb. apply Qltb_ge. rewrite Ha, Hb. apply Qle_refl.
Qed.

(** When the [x0] of a row are distinct, its elements come out strictly
    ascending. *)
Lemma sort_row_strict (texts : list LTTextContainer) (k : Z) :
  NoDup texts ->
  (forall a b, In a texts -> In b texts -> a <> b ->
               row_key a = row_key b -> ~ (x0 a == x0 b)%Q) ->
  StronglySorted (fun a b => (x0 a < x0 b)%Q)
    (sort_row (filter (in_row k) texts)).
Proof.
  intros Hnodup Hdist.
  assert (Hperm : Permutation (filter (in_row k) texts)
                    (sort_row (filter (in_row k) texts)))
    by apply sorted_perm.
  assert (Hmem : forall a, In a (sort_row (filter (in_row k) texts)) ->
                           In a texts /\ row_key a = k).
  { intros a Ha. apply (Permutation_in _ (Permutation_sym Hperm)) in Ha.
    apply filter_In in Ha. destruct Ha as [Ha Hk]. split; [exact Ha|].
    now apply Z.eqb_eq in Hk. }
  apply (strongly_sorted_weaken (fun a b => (x0 a <= x0 b)%Q)).
  - intros a b Ha Hb Hne Hle.
    destruct (Hmem a Ha) as [Ha' Hka], (Hmem b Hb) as [Hb' Hkb].
    apply Qle_lt_or_eq in Hle. destruct Hle as [Hlt|Heq]; [exact Hlt|].
    exfalso. apply (Hdist a b); auto. congruence.
  - eapply Permutation_NoDup; [exact Hperm|now apply NoDup_filter].
  - apply sort_row_ascending.
Qed.

(** The clustered rows depend on the set of elements only, when no row
    holds two elements of equal [x0]. *)
Lemma clustered_rows_perm (elements1 elements2 : list Element) :
  Permutation elements1 elements2 ->
  distinct_x0_in_rows (text_elements elements1) ->
  clustered_rows elements1 = clustered_rows elements2.
Proof.
  intros Hperm Hdist.
  rewrite !clustered_rows_by_key, (sorted_rows_keys_perm _ _ Hperm).
  apply map_ext. intros k. f_equal.
  pose proof (text_elements_perm _ _ Hperm) as Htexts.
  destruct (distinct_x0_perm _ _ (Permutation_refl _) Hdist) as [Hnd1 Hd1].
  destruct (distinct_x0_perm _ _ Htexts Hdist) as [Hnd2 Hd2].
  apply (strongly_sorted_unique (fun a b => (x0 a < x0 b)%Q)).
  - intros a b Hab Hba. apply (Qlt_irrefl (x0 a)). now apply (Qlt_trans _ (x0 b)).
  - now apply sort_row_strict.
  - now apply sort_row_strict.
  - unfold sort_row. rewrite <- !sorted_perm. now apply filter_perm.
Qed.

Lemma clustered_rows_members (elements : list Element) :
  Forall (fun item => Forall (fun e => row_key e = fst item) (snd item))
    (clustered_rows elements).
Proof.
  rewrite clustered_rows_by_key. apply Forall_map, Forall_forall.
  intros k _. simpl. apply Forall_forall. intros e He.
  unfold sort_row in He.
  apply (Permutation_in _ (Permutation_sym (sorted_perm _ _))) in He.
  apply filter_In in He. destruct He as [_ He]. now apply Z.eqb_eq in He.
Qed.

(** The end-to-end scenario: one regular table, [Name, Age] over [Alice, 30]. *)
Example name_age_page_tables :
  extract_all_tables init_tables [name_age_page]
  = Ok (mkAllTables
          [mkDataFrame [lit "Name"; lit "Age"] [[lit "Alice"; lit "30"]]]
          [] [] []).
Proof. reflexivity. Qed.

(** The claim C5 as stated fails: two orders of the same three elements
    give different rows, and the cells of the first row are not strictly
    ascending by [x0]. *)
Lemma C5_counterexample :
  Permutation page_ab page_ba
  /\ regular_table_data page_ab = [[lit "A"; lit "B"]; [lit "C"]]
  /\ regular_table_data page_ba = [[lit "B"; lit "A"]; [lit "C"]]
  /\ regular_table_data page_ab <> regular_table_data page_ba
  /\ clustered_rows page_ab = [(700%Z, [overlap_a; overlap_b]); (680%Z, [below_c])]
  /\ ~ (x0 overlap_a < x0 overlap_b)%Q
  /\ extract_all_tables init_tables [page_ab]
     <> extract_all_tables init_tables [page_ba].
Proof.
  split; [apply perm_swap|].
  split; [reflexivity|].
  split; [reflexivity|].
  split; [vm_compute; discriminate|].
  split; [reflexivity|].
  split; [vm_compute; discriminate|].
  vm_compute; discriminate.
Qed.

(** C5 (amended). For two sequences holding the same elements, the row
    keys come out the same and strictly descending, and the cells of each
    row ascending by [x0]; when no two elements of a row have the same
    [x0], the cells are strictly ascending and the whole output is the
    same for both sequences. *)
Theorem C5_row_clusterer_order (elements1 elements2 : list Element) :
  Permutation elements1 elements2 ->
  (regular_table_data elements1
   = map (fun item => map cell (snd item)) (clustered_rows elements1)
   /\ map fst (clustered_rows elements1) = map fst (clustered_rows elements2)
   /\ StronglySorted (fun k k' => (k' < k)%Z) (map fst (clustered_rows elements1))
   /\ Forall
        (fun item =>
           StronglySorted (fun a b => (x0 a <= x0 b)%Q) (snd item)
           /\ Forall (fun e => row_key e = fst item) (snd item))
        (clustered_rows elements1))
  /\ (distinct_x0_in_rows (text_elements elements1) ->
      clustered_rows elements1 = clustered_rows elements2
      /\ regular_table_data elements1 = regular_table_data elements2
      /\ Forall
           (fun item => StronglySorted (fun a b => (x0 a < x0 b)%Q) (snd item))
           (clustered_rows elements1)).
Proof.
  intros Hperm. split.
  - split; [apply regular_table_data_clustered|].
    split; [rewrite !clustered_rows_keys; now apply sorted_rows_keys_perm|].
    split; [rewrite clustered_rows_keys; apply sorted_rows_descending|].
    pose proof (clustered_rows_members elements1) as Hmem.
    rewrite Forall_forall in *. intros item Hitem. split; [|now apply Hmem].
    unfold clustered_rows in Hitem. apply in_map_iff in Hitem.
    destruct Hitem as (raw & <- & _). simpl. apply sort_row_ascending.
  - intros Hdist.
    pose proof (clustered_rows_perm _ _ Hperm Hdist) as Hsame.
    split; [exact Hsame|].
    split; [rewrite !regular_table_data_clustered; now rewrite Hsame|].
    rewrite clustered_rows_by_key. apply Forall_map, Forall_forall.
    intros k _. simpl.
    destruct (distinct_x0_perm _ _ (Permutation_refl _) Hdist) as [Hnd Hd].
    now apply sort_row_strict.
Qed.

Lemma C5_row_clusterer_order_witness :
  regular_table_data name_age_page = regular_table_data (rev name_age_page).
Proof.
  destruct (C5_row_clusterer_order name_age_page (rev name_age_page))
    as (_ & Hsame); [apply Permutation_rev|].
  apply Hsame. unfold distinct_x0_in_rows.
  repeat constructor;
    intros Hkey Hx0;
    solve [vm_compute in Hkey; discriminate | vm_compute in Hx0; discriminate].
Defined.

(** ** Block Segmenter *)

Lemma flush_groups (blocks : list str) (current : list str) (groups : list (list str)) :
  blocks = map (join NL) groups ->
  Forall (fun grp => grp <> []) groups ->
  exists groups',
    flush blocks current = map (join NL) groups'
    /\ Forall (fun grp => grp <> []) groups'
    /\ concat groups' = concat groups ++ current.
Proof.
  intros -> Hne. destruct current as [|line current].
  - exists groups. simpl. now rewrite app_nil_r.
  - exists (groups ++ [line :: current]). repeat split.
    + unfold flush. now rewrite map_app.
    + apply Forall_app. split; [exact Hne|]. now repeat constructor.
    + rewrite concat_app. simpl. now rewrite app_nil_r.
Qed.

Lemma group_loop_groups (texts : list LTTextContainer) (g : Grouping)
  (groups : list (list str)) :
  blocks g = map (join NL) groups ->
  Forall (fun grp => grp <> []) groups ->
  exists groups',
    flush (blocks (fold_left group_step texts g))
      (current_block (fold_left group_step texts g))
    = map (join NL) groups'
    /\ Forall (fun grp => grp <> []) groups'
    /\ concat groups' = concat groups ++ current_block g ++ map get_text texts.
Proof.
  revert g groups; induction texts as [|e texts IH]; intros g groups Hblocks Hne.
  - simpl. rewrite app_nil_r. now apply flush_groups.
  - simpl fold_left. unfold group_step at 2 4.
    destruct (starts_block (prev_y g) e).
    + destruct (flush_groups _ (current_block g) _ Hblocks Hne)
        as (groups1 & Hflush & Hne1 & Hcat1).
      destruct (IH (mkGrouping (flush (blocks g) (current_block g))
                      [get_text e] (Some (y1 e))) groups1 Hflush Hne1)
        as (groups' & H1 & H2 & H3).
      exists groups'. repeat split; [exact H1|exact H2|].
      rewrite H3, Hcat1. simpl. now rewrite <- app_assoc.
    + destruct (IH (mkGrouping (blocks g) (current_block g ++ [get_text e])
                      (Some (y1 e))) groups Hblocks Hne)
        as (groups' & H1 & H2 & H3).
      exists groups'. repeat split; [exact H1|exact H2|].
      rewrite H3. simpl. now rewrite <- app_assoc.
Qed.

(** The blocks are the newline joins of non-empty groups of texts that
    partition the texts of the page. *)
Lemma group_text_blocks_groups (texts : list LTTextContainer) :
  exists groups,
    _group_text_blocks texts = map (join NL) groups
    /\ Forall (fun grp => grp <> []) groups
    /\ Permutation (concat groups) (map get_text texts).
Proof.
  unfold _group_text_blocks.
  destruct (group_loop_groups (sorted block_key_lt texts) (mkGrouping [] [] None) [])
    as (groups & H1 & H2 & H3); [reflexivity|constructor|].
  exists groups. repeat split; [exact H1|exact H2|].
  rewrite H3. simpl. apply Permutation_map, Permutation_sym, sorted_perm.
Qed.

Lemma page_lines_texts (texts : list LTTextContainer) :
  page_lines texts = flat_map (split NL) (map get_text texts).
Proof.
  unfold page_lines. induction texts as [|e texts IH]; simpl; [reflexivity|].
  now rewrite IH.
Qed.

(** The lines of a block are a segment of a rearrangement of the lines of
    the page. *)
Lemma block_lines (texts : list LTTextContainer) (block : str) :
  In block (_group_text_blocks texts) ->
  exists before after,
    Permutation (before ++ split NL block ++ after) (page_lines texts).
Proof.
  destruct (group_text_blocks_groups texts) as (groups & -> & Hne & Hperm).
  intros Hin. apply in_map_iff in Hin. destruct Hin as (grp & <- & Hgrp).
  rewrite Forall_forall in Hne.
  rewrite split_join by now apply Hne.
  rewrite <- flat_map_concat_map.
  apply in_split in Hgrp. destruct Hgrp as (groups1 & groups2 & ->).
  exists (flat_map (split NL) (concat groups1)),
         (flat_map (split NL) (concat groups2)).
  rewrite page_lines_texts, <- Hperm.
  rewrite concat_app. simpl. rewrite !flat_map_app. reflexivity.
Qed.

Lemma block_lines_Forall (P : str -> Prop) (texts : list LTTextContainer) (block : str) :
  Forall P (page_lines texts) -> In block (_group_text_blocks texts) ->
  Forall P (split NL block).
Proof.
  intros Hall Hin. destruct (block_lines _ _ Hin) as (before & after & Hperm).
  rewrite <- Hperm in Hall. apply Forall_app in Hall. destruct Hall as [_ Hall].
  apply Forall_app in Hall. tauto.
Qed.

Lemma block_lines_filter (p : str -> bool) (texts : list LTTextContainer) (block : str) :
  In block (_group_text_blocks texts) ->
  length (filter p (split NL block)) <= length (filter p (page_lines texts)).
Proof.
  intros Hin. destruct (block_lines _ _ Hin) as (before & after & Hperm).
  rewrite <- (Permutation_length (filter_perm p _ _ Hperm)).
  rewrite !filter_app, !length_app. lia.
Qed.

(** ** Pages of prose *)

Lemma repeated_of_counts (delim : char) (lines : list str) :
  Forall (fun line => count delim line <= 1) lines -> repeated delim lines = false.
Proof.
  intros Hall. apply repeated_false. intros [line [Hin Hcount]].
  rewrite Forall_forall in Hall. specialize (Hall line Hin). lia.
Qed.

Lemma extract_block_prose (all_tables : AllTables) (block : str) :
  length (filter (contains TAB) (split NL block)) <= 1 ->
  (forall delim, In delim repeat_delimiters ->
                 Forall (fun line => count delim line <= 1) (split NL block)) ->
  extract_block all_tables block = Ok all_tables.
Proof.
  intros Htab Hrep. unfold extract_block, choose_delimiter.
  destruct (existsb (contains TAB) (split NL block)).
  - apply process_delimited_table_short.
    rewrite delimited_table_data_rows, length_map. lia.
  - rewrite (repeated_of_counts COLON) by (apply Hrep; simpl; tauto). simpl.
    rewrite (repeated_of_counts PIPE) by (apply Hrep; simpl; tauto).
    rewrite (repeated_of_counts SEMICOLON) by (apply Hrep; simpl; tauto).
    rewrite (repeated_of_counts COMMA) by (apply Hrep; simpl; tauto).
    reflexivity.
Qed.

Lemma extract_delimited_tables_prose (all_tables : AllTables)
  (texts : list LTTextContainer) :
  length (filter (contains TAB) (page_lines texts)) <= 1 ->
  (forall delim, In delim repeat_delimiters ->
                 Forall (fun line => count delim line <= 1) (page_lines texts)) ->
  _extract_delimited_tables all_tables texts = Ok all_tables.
Proof.
  intros Htab Hrep. unfold _extract_delimited_tables.
  destruct (for_each_invariant (fun s => s = all_tables) extract_block
              (_group_text_blocks texts) all_tables eq_refl) as (s & Hs & ->);
    [|exact Hs].
  intros s block Hin ->. exists all_tables. split; [|reflexivity].
  apply extract_block_prose.
  - pose proof (block_lines_filter (contains TAB) texts block Hin). lia.
  - intros delim Hdelim. apply block_lines_Forall with (texts := texts); auto.
Qed.

Lemma single_in_row (texts : list LTTextContainer) (k : Z) :
  NoDup (map row_key texts) -> In k (map row_key texts) ->
  length (filter (in_row k) texts) = 1.
Proof.
  induction texts as [|e texts IH]; simpl; [tauto|].
  intros Hnodup Hin. inversion Hnodup as [|? ? Hnotin Hrest]; subst.
  unfold in_row at 1. destruct (Z.eqb_spec (row_key e) k) as [<-|Hne].
  - simpl. f_equal. apply length_zero_iff_nil.
    destruct (filter (in_row (row_key e)) texts) as [|e' rest] eqn:Hf; [reflexivity|].
    exfalso. apply Hnotin.
    assert (He' : In e' (filter (in_row (row_key e)) texts))
      by (rewrite Hf; now left).
    apply filter_In in He'. destruct He' as [He' Hk].
    apply Z.eqb_eq in Hk. rewrite <- Hk. now apply in_map.
  - apply IH; [exact Hrest|]. destruct Hin as [Heq|Hin]; [contradiction|exact Hin].
Qed.

(** When no two text elements share a row key, the regular table data has
    one row of one cell for each text element. *)
Lemma regular_table_data_single (elements : list Element) :
  NoDup (map row_key (text_elements elements)) ->
  length (regular_table_data elements) = length (text_elements elements)
  /\ Forall (fun row => length row = 1) (regular_table_data elements).
Proof.
  intros Hnodup. split.
  - rewrite regular_table_data_clustered. unfold clustered_rows.
    rewrite !length_map, <- (Permutation_length (sorted_rows_perm elements)).
    now apply rows_of_texts_length.
  - rewrite regular_table_data_clustered, clustered_rows_by_key, map_map.
    apply Forall_map, Forall_forall. intros k Hk. simpl.
    rewrite length_map. unfold sort_row.
    rewrite <- (Permutation_length (sorted_perm _ _)).
    apply single_in_row; [exact Hnodup|]. now apply sorted_rows_keys.
Qed.

(** Two single-tab lines of one block do give a table of the tab category
    (of one column), beside the regular table of the page. *)
Example tab_page_tables :
  extract_all_tables init_tables [tab_page]
  = Ok (mkAllTables
          [mkDataFrame [lit "a" ++ TAB :: lit "b"] [[lit "c" ++ TAB :: lit "d"]]]
          [mkDataFrame [lit "a b"] [[lit "c d"]]]
          [] []).
Proof. reflexivity. Qed.




(** * Further properties of the extractor *)

(** ** What a run adds to the tables *)

Lemma merge_tables_init_r (t : AllTables) : merge_tables t init_tables = t.
Proof. destruct t. unfold merge_tables. simpl. now rewrite !app_nil_r. Qed.

Lemma merge_tables_init_l (t : AllTables) : merge_tables init_tables t = t.
Proof. now destruct t. Qed.

Lemma merge_tables_assoc (a b c : AllTables) :
  merge_tables (merge_tables a b) c = merge_tables a (merge_tables b c).
Proof. unfold merge_tables. simpl. now rewrite <- !app_assoc. Qed.

Lemma append_table_merge (t : AllTables) (table_type : TableType) (df : DataFrame) :
  append_table t table_type df
  = merge_tables t (append_table init_tables table_type df).
Proof.
  destruct t, table_type; unfold merge_tables; simpl; now rewrite ?app_nil_r.
Qed.

Lemma fold_merge_tables (ds : list AllTables) (t : AllTables) :
  fold_left merge_tables ds t = merge_tables t (fold_left merge_tables ds init_tables).
Proof.
  revert t; induction ds as [|d ds IH]; intros t; simpl.
  - now rewrite merge_tables_init_r.
  - rewrite IH, (IH (merge_tables init_tables d)).
    now rewrite merge_tables_init_l, merge_tables_assoc.
Qed.

(** A loop whose every round appends what its item yields on its own
    appends, in order, what the items yield. *)
Lemma for_each_merge {X : Type} (body : AllTables -> X -> result AllTables)
  (delta : X -> AllTables) (xs : list X) (t : AllTables) :
  (forall s x, In x xs -> body s x = Ok (merge_tables s (delta x))) ->
  for_each body xs t = Ok (fold_left merge_tables (map delta xs) t).
Proof.
  revert t; induction xs as [|x xs IH]; intros t Hbody; [reflexivity|].
  rewrite for_each_cons, Hbody by now left. simpl.
  apply IH. intros s y Hy. apply Hbody. now right.
Qed.

Lemma process_delimited_table_merge (t : AllTables) (lines : list str)
  (delimiter : char) (table_type : TableType) :
  exists d,
    _process_delimited_table init_tables lines delimiter table_type = Ok d
    /\ _process_delimited_table t lines delimiter table_type
       = Ok (merge_tables t d).
Proof.
  destruct (delimited_table_data lines delimiter) as [|headers [|row rows]] eqn:Htd.
  - exists init_tables.
    rewrite !process_delimited_table_short by (rewrite Htd; simpl; lia).
    now rewrite merge_tables_init_r.
  - exists init_tables.
    rewrite !process_delimited_table_short by (rewrite Htd; simpl; lia).
    now rewrite merge_tables_init_r.
  - eexists.
    rewrite !(process_delimited_table_long _ _ _ _ headers (row :: rows))
      by (assumption || discriminate).
    split; [reflexivity|]. now rewrite append_table_merge.
Qed.

Lemma extract_block_merge (t : AllTables) (block : str) :
  extract_block t block = Ok (merge_tables t (tables_of_block block)).
Proof.
  unfold tables_of_block, extract_block.
  destruct (choose_delimiter (split NL block)) as [[delimiter table_type]|].
  - destruct (process_delimited_table_merge t (split NL block) delimiter table_type)
      as (d & -> & ->). reflexivity.
  - now rewrite merge_tables_init_r.
Qed.

Lemma extract_delimited_tables_merge (t : AllTables) (texts : list LTTextContainer) :
  _extract_delimited_tables t texts
  = Ok (fold_left merge_tables
          (map tables_of_block (_group_text_blocks texts)) t).
Proof.
  unfold _extract_delimited_tables. apply for_each_merge.
  intros s block _. apply extract_block_merge.
Qed.

Lemma extract_regular_tables_merge (t : AllTables) (elements : list Element) :
  exists d,
    _extract_regular_tables init_tables elements = Ok d
    /\ _extract_regular_tables t elements = Ok (merge_tables t d).
Proof.
  destruct (regular_table_data elements) as [|headers [|row rows]] eqn:Htd.
  - exists init_tables.
    rewrite !extract_regular_tables_short by (rewrite Htd; simpl; lia).
    now rewrite merge_tables_init_r.
  - exists init_tables.
    rewrite !extract_regular_tables_short by (rewrite Htd; simpl; lia).
    now rewrite merge_tables_init_r.
  - eexists.
    rewrite !(extract_regular_tables_long _ _ headers (row :: rows))
      by (assumption || discriminate).
    split; [reflexivity|]. now rewrite append_table_merge.
Qed.

Lemma process_page_merge (t : AllTables) (elements : list Element) :
  exists d,
    _process_page_elements init_tables elements = Ok d
    /\ _process_page_elements t elements = Ok (merge_tables t d).
Proof.
  unfold _process_page_elements.
  destruct (extract_regular_tables_merge t elements) as (d & -> & ->). simpl.
  rewrite !extract_delimited_tables_merge. eexists. split; [reflexivity|].
  rewrite fold_merge_tables, (fold_merge_tables _ d).
  now rewrite merge_tables_assoc.
Qed.

Lemma tables_of_page_run (page_layout : list Element) :
  _process_page_elements init_tables (filter is_kept page_layout)
  = Ok (tables_of_page page_layout).
Proof.
  unfold tables_of_page, extract_all_tables. rewrite for_each_cons.
  destruct (process_page_merge init_tables (filter is_kept page_layout))
    as (d & -> & _). reflexivity.
Qed.

Lemma process_page_tables_of_page (t : AllTables) (page_layout : list Element) :
  _process_page_elements t (filter is_kept page_layout)
  = Ok (merge_tables t (tables_of_page page_layout)).
Proof.
  destruct (process_page_merge t (filter is_kept page_layout)) as (d & Hd & ->).
  rewrite tables_of_page_run in Hd. now injection Hd as <-.
Qed.

(** X1. The tables after a run are the tables before it followed, page after
    page and category by category, by what a fresh extractor yields for
    each page alone; a document of one page yields [tables_of_page]. *)
Theorem extract_all_tables_page_by_page (all_tables : AllTables)
  (pages : list (list Element)) :
  extract_all_tables all_tables pages
  = Ok (fold_left merge_tables (map tables_of_page pages) all_tables)
  /\ (forall before after,
        pages = before ++ after ->
        exists first second,
          extract_all_tables init_tables before = Ok first
          /\ extract_all_tables init_tables after = Ok second
          /\ extract_all_tables init_tables pages = Ok (merge_tables first second)).
Proof.
  assert (Hrun : forall t ps,
             extract_all_tables t ps
             = Ok (fold_left merge_tables (map tables_of_page ps) t)).
  { intros t ps. unfold extract_all_tables. apply for_each_merge.
    intros s page _. apply process_page_tables_of_page. }
  split; [apply Hrun|].
  intros before after ->. do 2 eexists.
  rewrite !Hrun. repeat split.
  rewrite map_app, fold_left_app. apply f_equal. apply fold_merge_tables.
Qed.

Lemma extract_all_tables_page_by_page_witness :
  extract_all_tables init_tables [name_age_page; prose_page]
  = Ok (merge_tables (tables_of_page name_age_page) (tables_of_page prose_page)).
Proof.
  destruct (extract_all_tables_page_by_page init_tables [name_age_page; prose_page])
    as [_ Hsplit].
  destruct (Hsplit [name_age_page] [prose_page] eq_refl)
    as (first & second & H1 & H2 & ->).
  vm_compute in H1, H2. injection H1 as <-. injection H2 as <-. reflexivity.
Defined.

(** X2. An extractor that already holds tables keeps them, in place and in
    order, and appends to each category what a fresh extractor would
    return for the same pages. *)
Theorem extract_all_tables_accumulates (all_tables : AllTables)
  (pages : list (list Element)) :
  exists fresh,
    extract_all_tables init_tables pages = Ok fresh
    /\ extract_all_tables all_tables pages = Ok (merge_tables all_tables fresh).
Proof.
  assert (Hrun : forall t,
             extract_all_tables t pages
             = Ok (fold_left merge_tables (map tables_of_page pages) t)).
  { intros t. unfold extract_all_tables. apply for_each_merge.
    intros s page _. apply process_page_tables_of_page. }
  eexists. rewrite !Hrun. split; [reflexivity|].
  now rewrite fold_merge_tables.
Qed.

(** ** Shape and number of the tables of a run *)

Lemma all_frames_merge (P : DataFrame -> Prop) (a b : AllTables) :
  Forall P (all_frames a) -> Forall P (all_frames b) ->
  Forall P (all_frames (merge_tables a b)).
Proof.
  unfold all_frames, merge_tables. simpl. rewrite !Forall_app. tauto.
Qed.

Lemma all_frames_fold (P : DataFrame -> Prop) (ds : list AllTables) (t : AllTables) :
  Forall P (all_frames t) -> Forall (fun d => Forall P (all_frames d)) ds ->
  Forall P (all_frames (fold_left merge_tables ds t)).
Proof.
  revert t; induction ds as [|d ds IH]; intros t Ht Hds; [exact Ht|].
  inversion Hds; subst. simpl. apply IH; [now apply all_frames_merge|assumption].
Qed.

Lemma all_frames_append (table_type : TableType) (df : DataFrame) :
  Permutation (all_frames (append_table init_tables table_type df)) [df].
Proof. destruct table_type; reflexivity. Qed.

Lemma normalized_well_formed (headers : list str) (rows : list (list str)) :
  headers <> [] -> rows <> [] ->
  well_formed (mkDataFrame headers (map (clean_row (length headers)) rows)).
Proof.
  intros Hh Hr. repeat split; simpl.
  - exact Hh.
  - destruct rows; [congruence|discriminate].
  - apply Forall_map, Forall_forall. intros row _. apply clean_row_length.
Qed.

Lemma delimited_rows_not_empty (lines : list str) (delimiter : char) :
  Forall (fun row => row <> []) (delimited_table_data lines delimiter).
Proof.
  rewrite delimited_table_data_rows. apply Forall_map, Forall_forall.
  intros line _. unfold row_of_line.
  pose proof (split_not_nil delimiter (re_sub_ws (strip line))) as Hne.
  destruct (split delimiter (re_sub_ws (strip line))); [congruence|discriminate].
Qed.

Lemma row_elements_not_empty (elements : list Element) :
  Forall (fun item => snd item <> []) (clustered_rows elements).
Proof.
  rewrite clustered_rows_by_key. apply Forall_map, Forall_forall.
  intros k Hk. simpl. apply sorted_rows_keys, in_map_iff in Hk.
  destruct Hk as (e & Hkey & He).
  assert (Hin : In e (sort_row (filter (in_row k) (text_elements elements)))).
  { unfold sort_row. apply (Permutation_in _ (sorted_perm _ _)).
    apply filter_In. split; [exact He|]. now apply Z.eqb_eq. }
  intros Hnil. now rewrite Hnil in Hin.
Qed.

Lemma regular_rows_not_empty (elements : list Element) :
  Forall (fun row => row <> []) (regular_table_data elements).
Proof.
  rewrite regular_table_data_clustered. apply Forall_map.
  eapply Forall_impl; [|apply row_elements_not_empty].
  intros item Hne Hnil. apply Hne. now apply map_eq_nil in Hnil.
Qed.

Lemma tables_of_block_well_formed (block : str) :
  Forall well_formed (all_frames (tables_of_block block))
  /\ regular (tables_of_block block) = []
  /\ length (all_frames (tables_of_block block)) <= 1.
Proof.
  unfold tables_of_block, extract_block.
  destruct (choose_delimiter (split NL block)) as [[delimiter table_type]|] eqn:Hc;
    [|repeat split; simpl; [constructor|lia]].
  pose proof (delimited_rows_not_empty (split NL block) delimiter) as Hne.
  destruct (delimited_table_data (split NL block) delimiter)
    as [|headers [|row rows]] eqn:Htd.
  - rewrite process_delimited_table_short by (rewrite Htd; simpl; lia).
    repeat split; simpl; [constructor|lia].
  - rewrite process_delimited_table_short by (rewrite Htd; simpl; lia).
    repeat split; simpl; [constructor|lia].
  - rewrite (process_delimited_table_long _ _ _ _ headers (row :: rows))
      by (assumption || discriminate).
    repeat split.
    + rewrite (all_frames_append table_type). constructor; [|constructor].
      apply normalized_well_formed; [now inversion Hne|discriminate].
    + unfold choose_delimiter in Hc.
      destruct (existsb (contains TAB) (split NL block)); [now inversion Hc|].
      destruct (repeated COLON (split NL block)); [now inversion Hc|].
      destruct (first_repeated _ (split NL block)); now inversion Hc.
    + now rewrite (Permutation_length (all_frames_append table_type _)).
Qed.

Lemma regular_part_well_formed (elements : list Element) :
  exists d,
    _extract_regular_tables init_tables elements = Ok d
    /\ Forall well_formed (all_frames d)
    /\ length (regular d) <= 1
    /\ tab d = [] /\ colon d = [] /\ other d = [].
Proof.
  pose proof (regular_rows_not_empty elements) as Hne.
  destruct (regular_table_data elements) as [|headers [|row rows]] eqn:Htd.
  - exists init_tables.
    rewrite extract_regular_tables_short by (rewrite Htd; simpl; lia).
    repeat split; simpl; [constructor|lia].
  - exists init_tables.
    rewrite extract_regular_tables_short by (rewrite Htd; simpl; lia).
    repeat split; simpl; [constructor|lia].
  - eexists.
    rewrite (extract_regular_tables_long _ _ headers (row :: rows))
      by (assumption || discriminate).
    split; [reflexivity|]. split; [|simpl; repeat split; lia].
    rewrite (all_frames_append regular_tables). constructor; [|constructor].
    apply normalized_well_formed; [now inversion Hne|discriminate].
Qed.

(** What a page yields: the regular table, if any, then the tables of its
    blocks. *)
Lemma tables_of_page_parts (page_layout : list Element) :
  exists d,
    _extract_regular_tables init_tables (filter is_kept page_layout) = Ok d
    /\ tables_of_page page_layout
       = merge_tables d
           (fold_left merge_tables
              (map tables_of_block (_group_text_blocks (text_elements page_layout)))
              init_tables).
Proof.
  pose proof (tables_of_page_run page_layout) as Hrun.
  unfold _process_page_elements in Hrun.
  destruct (regular_part_well_formed (filter is_kept page_layout)) as (d & Hd & _).
  exists d. split; [exact Hd|].
  rewrite Hd in Hrun. simpl in Hrun.
  rewrite extract_delimited_tables_merge, text_elements_kept in Hrun.
  injection Hrun as <-. apply fold_merge_tables.
Qed.

Lemma tables_of_page_well_formed (page_layout : list Element) :
  Forall well_formed (all_frames (tables_of_page page_layout)).
Proof.
  destruct (tables_of_page_parts page_layout) as (d & Hd & ->).
  destruct (regular_part_well_formed (filter is_kept page_layout))
    as (d' & Hd' & Hwf & _).
  rewrite Hd in Hd'. injection Hd' as <-.
  apply all_frames_merge; [exact Hwf|].
  apply all_frames_fold; [constructor|].
  apply Forall_map, Forall_forall. intros block _.
  apply tables_of_block_well_formed.
Qed.

(** X3. Every table a run returns, in whichever category, has at least one
    column and at least one data row, and all its data rows have the
    length of its header. *)
Theorem extracted_tables_well_formed (pages : list (list Element)) :
  exists all_tables,
    extract_all_tables init_tables pages = Ok all_tables
    /\ Forall well_formed (all_frames all_tables).
Proof.
  eexists. split.
  - unfold extract_all_tables. apply for_each_merge.
    intros s page _. apply process_page_tables_of_page.
  - apply all_frames_fold; [constructor|].
    apply Forall_map, Forall_forall. intros page _.
    apply tables_of_page_well_formed.
Qed.

Lemma fold_merge_regular (ds : list AllTables) (t : AllTables) :
  length (regular (fold_left merge_tables ds t))
  = length (regular t) + list_sum (map (fun d => length (regular d)) ds).
Proof.
  revert t; induction ds as [|d ds IH]; intros t; simpl; [lia|].
  rewrite IH. simpl. rewrite length_app. lia.
Qed.

Lemma fold_merge_delimited (ds : list AllTables) (t : AllTables) :
  length (tab (fold_left merge_tables ds t))
  + length (colon (fold_left merge_tables ds t))
  + length (other (fold_left merge_tables ds t))
  = length (tab t) + length (colon t) + length (other t)
    + list_sum
        (map (fun d => length (tab d) + length (colon d) + length (other d)) ds).
Proof.
  revert t; induction ds as [|d ds IH]; intros t; simpl; [lia|].
  rewrite IH. simpl. rewrite !length_app. lia.
Qed.

Lemma list_sum_le {X : Type} (f g : X -> nat) (xs : list X) :
  (forall x, In x xs -> f x <= g x) ->
  list_sum (map f xs) <= list_sum (map g xs).
Proof.
  induction xs as [|x xs IH]; intros Hle; simpl; [lia|].
  specialize (Hle x (or_introl eq_refl)) as Hx.
  assert (list_sum (map f xs) <= list_sum (map g xs))
    by (apply IH; intros y Hy; apply Hle; now right).
  lia.
Qed.

Lemma list_sum_ones {X : Type} (xs : list X) :
  list_sum (map (fun _ => 1) xs) = length xs.
Proof. induction xs as [|x xs IH]; simpl; [reflexivity|now rewrite IH]. Qed.

Lemma length_flat_map {X Y : Type} (f : X -> list Y) (xs : list X) :
  length (flat_map f xs) = list_sum (map (fun x => length (f x)) xs).
Proof.
  induction xs as [|x xs IH]; simpl; [reflexivity|].
  now rewrite length_app, IH.
Qed.

Lemma blocks_at_most_texts (texts : list LTTextContainer) :
  length (_group_text_blocks texts) <= length texts.
Proof.
  destruct (group_text_blocks_groups texts) as (groups & -> & Hne & Hperm).
  rewrite length_map, <- (length_map get_text texts),
    <- (Permutation_length Hperm).
  clear Hperm. induction Hne as [|grp groups Hgrp _ IH]; simpl; [lia|].
  rewrite length_app. destruct grp; [congruence|simpl; lia].
Qed.

Lemma blocks_add_no_regular (blocks : list str) :
  list_sum (map (fun block => length (regular (tables_of_block block))) blocks) = 0.
Proof.
  induction blocks as [|block blocks IH]; simpl; [reflexivity|].
  destruct (tables_of_block_well_formed block) as (_ & -> & _). exact IH.
Qed.

Lemma blocks_add_at_most_one_each (blocks : list str) :
  list_sum
    (map (fun block =>
            length (tab (tables_of_block block))
            + length (colon (tables_of_block block))
            + length (other (tables_of_block block))) blocks)
  <= length blocks.
Proof.
  rewrite <- (list_sum_ones blocks). apply list_sum_le. intros block _.
  destruct (tables_of_block_well_formed block) as (_ & Hnoreg & Hone).
  unfold all_frames in Hone. rewrite Hnoreg, !length_app in Hone.
  simpl in Hone. lia.
Qed.

Lemma tables_of_page_counts (page_layout : list Element) :
  length (regular (tables_of_page page_layout)) <= 1
  /\ length (tab (tables_of_page page_layout))
     + length (colon (tables_of_page page_layout))
     + length (other (tables_of_page page_layout))
     <= length (text_elements page_layout).
Proof.
  destruct (tables_of_page_parts page_layout) as (d & Hd & ->).
  destruct (regular_part_well_formed (filter is_kept page_layout))
    as (d' & Hd' & _ & Hreg & Htab & Hcolon & Hother).
  rewrite Hd in Hd'. injection Hd' as <-.
  set (blocks := _group_text_blocks (text_elements page_layout)).
  pose proof (fold_merge_regular (map tables_of_block blocks) init_tables) as Hr.
  pose proof (fold_merge_delimited (map tables_of_block blocks) init_tables) as Hdel.
  rewrite map_map in Hr, Hdel.
  rewrite blocks_add_no_regular in Hr.
  pose proof (blocks_add_at_most_one_each blocks) as Hone.
  pose proof (blocks_at_most_texts (text_elements page_layout)) as Hblocks.
  fold blocks in Hblocks.
  cbn [merge_tables regular tab colon other].
  rewrite !length_app, Htab, Hcolon, Hother.
  cbn [init_tables regular tab colon other length] in Hr, Hdel |- *.
  split; lia.
Qed.

(** X4. A run over a fresh extractor returns at most one regular table per
    page, and the tab, colon and other tables together are at most as many
    as the text elements of the document. *)
Theorem extracted_tables_counts (pages : list (list Element)) :
  exists all_tables,
    extract_all_tables init_tables pages = Ok all_tables
    /\ length (regular all_tables) <= length pages
    /\ length (tab all_tables) + length (colon all_tables)
       + length (other all_tables)
       <= length (flat_map text_elements pages).
Proof.
  eexists. split.
  - unfold extract_all_tables. apply for_each_merge.
    intros s page _. apply process_page_tables_of_page.
  - rewrite fold_merge_regular, fold_merge_delimited, !map_map. simpl. split.
    + rewrite <- (list_sum_ones pages). apply list_sum_le.
      intros page _. apply tables_of_page_counts.
    + rewrite length_flat_map. apply list_sum_le.
      intros page _. apply tables_of_page_counts.
Qed.

(** ** Graphic elements *)

Lemma regular_table_data_texts (elements1 elements2 : list Element) :
  text_elements elements1 = text_elements elements2 ->
  regular_table_data elements1 = regular_table_data elements2.
Proof.
  intros Heq. unfold regular_table_data, sorted_rows.
  now rewrite !group_rows_texts, Heq.
Qed.

(** X5. A page is read through its text elements only: two pages with the
    same text elements in the same order, whatever rectangles, lines,
    figures and other items lie between them, give the same tables. *)
Theorem graphics_are_ignored (all_tables : AllTables)
  (pages1 pages2 : list (list Element)) :
  map text_elements pages1 = map text_elements pages2 ->
  extract_all_tables all_tables pages1 = extract_all_tables all_tables pages2.
Proof.
  revert all_tables pages2; induction pages1 as [|p1 pages1 IH];
    intros all_tables [|p2 pages2] Heq; try discriminate; [reflexivity|].
  injection Heq as Hp Hrest.
  unfold extract_all_tables in *. rewrite !for_each_cons.
  assert (Hpage : _process_page_elements all_tables (filter is_kept p1)
                  = _process_page_elements all_tables (filter is_kept p2)).
  { unfold _process_page_elements, _extract_regular_tables.
    rewrite (regular_table_data_texts (filter is_kept p1) (filter is_kept p2))
      by now rewrite !text_elements_kept.
    now rewrite !text_elements_kept, Hp. }
  rewrite Hpage.
  destruct (_process_page_elements all_tables (filter is_kept p2)) as [s|e];
    simpl; [now apply IH|reflexivity].
Qed.

Lemma graphics_are_ignored_witness :
  extract_all_tables init_tables [name_age_page]
  = extract_all_tables init_tables
      [map Text (text_elements name_age_page) ++ [LTFigure; LTLine; LTImage]].
Proof.
  apply (graphics_are_ignored init_tables [name_age_page]
           [map Text (text_elements name_age_page) ++ [LTFigure; LTLine; LTImage]]).
  reflexivity.
Defined.

(** ** Block Segmenter: order, partition and number of blocks *)

Lemma block_key_lt_iff (a b : LTTextContainer) :
  block_key_lt a b = true
  <-> (y1 b < y1 a)%Q \/ ((y1 a == y1 b)%Q /\ (x0 a < x0 b)%Q).
Proof.
  unfold block_key_lt.
  destruct (Qeq_bool (- y1 a) (- y1 b)) eqn:Heq.
  - apply Qeq_bool_iff in Heq. rewrite Qltb_lt. split.
    + intros H. right. split; [lra|exact H].
    + intros [H|[_ H]]; [lra|exact H].
  - apply Qeq_bool_neq in Heq. rewrite Qltb_lt. split.
    + intros H. left. lra.
    + intros [H|[H _]]; [lra|]. exfalso. apply Heq. lra.
Qed.

Lemma block_key_ge_iff (a b : LTTextContainer) :
  block_key_lt b a = false <-> reading_order a b.
Proof.
  unfold reading_order. split.
  - intros Hnot.
    destruct (Qlt_le_dec (y1 b) (y1 a)) as [Hlt|Hle]; [now left|].
    destruct (Qlt_le_dec (y1 a) (y1 b)) as [Hlt'|Hle'].
    + assert (block_key_lt b a = true) by (apply block_key_lt_iff; now left).
      congruence.
    + right. split; [lra|].
      destruct (Qlt_le_dec (x0 b) (x0 a)) as [Hx|Hx]; [|exact Hx].
      assert (block_key_lt b a = true)
        by (apply block_key_lt_iff; right; split; [lra|exact Hx]).
      congruence.
  - intros Hord. destruct (block_key_lt b a) eqn:Hlt; [|reflexivity].
    apply block_key_lt_iff in Hlt. exfalso.
    destruct Hord as [H|[H1 H2]], Hlt as [H'|[H1' H2']]; lra.
Qed.

Lemma reading_order_trans (a b c : LTTextContainer) :
  reading_order a b -> reading_order b c -> reading_order a c.
Proof.
  unfold reading_order. intros [H|[H1 H2]] [H'|[H1' H2']].
  - left; lra.
  - left; lra.
  - left; lra.
  - right; split; lra.
Qed.

(** X8. The Block Segmenter walks the text elements in reading order, top
    edge descending and then [x0] ascending; the walk holds every element
    once. *)
Theorem blocks_follow_reading_order (texts : list LTTextContainer) :
  StronglySorted reading_order (sorted block_key_lt texts)
  /\ Permutation texts (sorted block_key_lt texts).
Proof.
  split; [|apply sorted_perm].
  eapply strongly_sorted_impl; [|apply sorted_ascending].
  - intros a b H. now apply block_key_ge_iff.
  - intros a b H. apply block_key_ge_iff. apply block_key_lt_iff in H.
    unfold reading_order. destruct H as [H|[H1 H2]]; [now left|].
    right. split; [exact H1|lra].
  - intros a b c H1 H2. apply block_key_ge_iff in H1, H2. apply block_key_ge_iff.
    now apply (reading_order_trans c b a).
Qed.

Lemma flat_map_concat {X Y : Type} (f : X -> list Y) (ls : list (list X)) :
  flat_map f (concat ls) = concat (map (flat_map f) ls).
Proof.
  induction ls as [|l ls IH]; simpl; [reflexivity|].
  now rewrite flat_map_app, IH.
Qed.

(** X9. The blocks are the newline joins of consecutive, non-empty groups
    of the texts in reading order: no text is lost, repeated or moved, and
    the lines of the blocks are the lines of the texts. *)
Theorem blocks_partition_texts (texts : list LTTextContainer) :
  exists groups,
    _group_text_blocks texts = map (join NL) groups
    /\ Forall (fun grp => grp <> []) groups
    /\ concat groups = map get_text (sorted block_key_lt texts)
    /\ map (split NL) (_group_text_blocks texts)
       = map (flat_map (split NL)) groups
    /\ concat (map (split NL) (_group_text_blocks texts))
       = page_lines (sorted block_key_lt texts)
    /\ length (_group_text_blocks texts) <= length texts.
Proof.
  unfold _group_text_blocks at 1 2 3.
  destruct (group_loop_groups (sorted block_key_lt texts) (mkGrouping [] [] None) [])
    as (groups & Hblocks & Hne & Hcat); [reflexivity|constructor|].
  simpl in Hcat.
  assert (Hlines : map (split NL) (map (join NL) groups)
                   = map (flat_map (split NL)) groups).
  { rewrite map_map. apply map_ext_in. intros grp Hgrp.
    rewrite Forall_forall in Hne.
    rewrite split_join by now apply Hne.
    now rewrite flat_map_concat_map. }
  exists groups. rewrite Hblocks.
  split; [reflexivity|]. split; [exact Hne|]. split; [exact Hcat|].
  split; [exact Hlines|]. split.
  - rewrite Hlines, <- flat_map_concat, Hcat. symmetry. apply page_lines_texts.
  - apply blocks_at_most_texts.
Qed.

Lemma group_loop_count (texts : list LTTextContainer) (g : Grouping) (p : Q) :
  current_block g <> [] -> prev_y g = Some p ->
  length (flush (blocks (fold_left group_step texts g))
            (current_block (fold_left group_step texts g)))
  = S (length (blocks g) + boundaries_from p texts).
Proof.
  revert g p; induction texts as [|e texts IH]; intros g p Hcur Hprev.
  - simpl. destruct (current_block g); [congruence|].
    unfold flush. rewrite length_app. simpl. lia.
  - simpl fold_left. unfold group_step at 2 4. rewrite Hprev.
    cbn [boundaries_from].
    destruct (starts_block (Some p) e).
    + rewrite (IH _ (y1 e)) by (simpl; congruence). cbn [blocks].
      destruct (current_block g); [congruence|].
      unfold flush. rewrite length_app. simpl. lia.
    + rewrite (IH _ (y1 e)); cbn [blocks current_block prev_y];
        [lia| |reflexivity].
      intros Hnil. now apply app_eq_nil in Hnil.
Qed.

Lemma starts_block_gap (a b : LTTextContainer) :
  reading_order a b ->
  (starts_block (Some (y1 a)) b = true <-> (y1 b + 5 < y1 a)%Q).
Proof.
  intros Hord. unfold starts_block, min_row_gap. rewrite Qltb_lt.
  assert (Hpos : (0 <= y1 a - y1 b)%Q)
    by (destruct Hord as [H|[H _]]; lra).
  rewrite (Qabs_pos _ Hpos). split; intros H; lra.
Qed.



(** ** Row Clusterer: every element in one row, and when a table is made *)

Lemma dict_append_elements {V : Type} (rows : list (Z * list V)) (y : Z) (e : V) :
  Permutation (concat (map snd (dict_append rows y e)))
    (e :: concat (map snd rows)).
Proof.
  induction rows as [|[k v] rows IH]; simpl; [reflexivity|].
  destruct (Z.eqb k y); simpl.
  - rewrite <- app_assoc. simpl. symmetry. apply Permutation_middle.
  - rewrite IH. symmetry. apply Permutation_middle.
Qed.

Lemma rows_of_texts_elements (texts : list LTTextContainer) :
  Permutation (concat (map snd (rows_of_texts texts))) texts.
Proof.
  induction texts as [|e texts IH] using rev_ind; [reflexivity|].
  rewrite rows_of_texts_snoc, dict_append_elements, IH.
  apply Permutation_cons_append.
Qed.

Lemma clustered_rows_elements (elements : list Element) :
  Permutation (concat (map snd (clustered_rows elements))) (text_elements elements).
Proof.
  rewrite <- (rows_of_texts_elements (text_elements elements)).
  rewrite (sorted_rows_perm elements).
  unfold clustered_rows. rewrite map_map. simpl.
  induction (sorted_rows elements) as [|item items IH]; simpl; [reflexivity|].
  apply Permutation_app; [|exact IH].
  unfold sort_row. symmetry. apply sorted_perm.
Qed.

(** X11. The Row Clusterer puts every text element in exactly one row, the
    row of its rounded [y0]; no row is empty, and the regular table data
    has one cell per text element. *)
Theorem row_clusterer_keeps_every_element (elements : list Element) :
  Permutation (concat (map snd (clustered_rows elements))) (text_elements elements)
  /\ Forall
       (fun item =>
          snd item <> [] /\ Forall (fun e => row_key e = fst item) (snd item))
       (clustered_rows elements)
  /\ length (concat (regular_table_data elements))
     = length (text_elements elements).
Proof.
  split; [apply clustered_rows_elements|]. split.
  - pose proof (row_elements_not_empty elements) as Hne.
    pose proof (clustered_rows_members elements) as Hmem.
    rewrite Forall_forall in *. intros item Hitem. split; auto.
  - rewrite <- (Permutation_length (clustered_rows_elements elements)).
    rewrite regular_table_data_clustered.
    induction (clustered_rows elements) as [|item items IH]; simpl; [reflexivity|].
    now rewrite !length_app, length_map, IH.
Qed.

Lemma distinct_keys_length (elements : list Element) :
  length (regular_table_data elements)
  = length (nodup Z.eq_dec (map row_key (text_elements elements))).
Proof.
  rewrite regular_table_data_clustered, length_map.
  rewrite <- (length_map fst), clustered_rows_keys.
  apply Permutation_length, NoDup_Permutation;
    [apply sorted_rows_NoDup|apply NoDup_nodup|].
  intros k. now rewrite sorted_rows_keys, nodup_In.
Qed.

Lemma top_row_key (elements : list Element) (top : Z) (rest : list Z) :
  map fst (sorted_rows elements) = top :: rest ->
  In top (map row_key (text_elements elements))
  /\ (forall e, In e (text_elements elements) -> (row_key e <= top)%Z).
Proof.
  intros Hkeys. split.
  - apply sorted_rows_keys. rewrite Hkeys. now left.
  - intros e He.
    assert (Hin : In (row_key e) (map fst (sorted_rows elements)))
      by (apply sorted_rows_keys; now apply in_map).
    pose proof (sorted_rows_descending elements) as Hdesc.
    rewrite Hkeys in Hin, Hdesc. apply StronglySorted_inv in Hdesc.
    destruct Hdesc as [_ Hall]. rewrite Forall_forall in Hall.
    destruct Hin as [<-|Hin]; [lia|]. specialize (Hall _ Hin). lia.
Qed.

(** X12. The page gives a regular table exactly when its text elements have
    at least two distinct rounded [y0]; the table then has one data row
    for each further distinct value, and its header is the row of the
    greatest one, its cells in the order of [x0]. *)
Theorem regular_table_when_two_rows (all_tables : AllTables)
  (elements : list Element) :
  (length (nodup Z.eq_dec (map row_key (text_elements elements))) < 2 ->
   _extract_regular_tables all_tables elements = Ok all_tables)
  /\ (2 <= length (nodup Z.eq_dec (map row_key (text_elements elements))) ->
      exists df top,
        _extract_regular_tables all_tables elements
        = Ok (append_table all_tables regular_tables df)
        /\ S (length (data df))
           = length (nodup Z.eq_dec (map row_key (text_elements elements)))
        /\ In top (map row_key (text_elements elements))
        /\ (forall e, In e (text_elements elements) -> (row_key e <= top)%Z)
        /\ columns df
           = map cell (sort_row (filter (in_row top) (text_elements elements)))).
Proof.
  rewrite <- distinct_keys_length. split.
  - apply extract_regular_tables_short.
  - intros Hlen.
    pose proof (regular_table_data_clustered elements) as Hdata.
    rewrite clustered_rows_by_key, map_map in Hdata. simpl in Hdata.
    destruct (map fst (sorted_rows elements)) as [|top rest] eqn:Hkeys;
      [rewrite Hdata in Hlen; simpl in Hlen; lia|].
    destruct (top_row_key elements top rest Hkeys) as [Htop Hmax].
    simpl in Hdata.
    destruct rest as [|second rest];
      [rewrite Hdata in Hlen; simpl in Hlen; lia|].
    eexists. exists top.
    split; [eapply extract_regular_tables_long; [exact Hdata|discriminate]|].
    simpl. rewrite Hdata. simpl. rewrite !length_map. auto.
Qed.

Lemma regular_table_when_two_rows_witness :
  _extract_regular_tables init_tables [LTRect; Text overlap_a; Text overlap_b]
  = Ok init_tables
  /\ exists df,
       _extract_regular_tables init_tables page_ab
       = Ok (append_table init_tables regular_tables df)
       /\ S (length (data df)) = 2.
Proof.
  split.
  - apply (regular_table_when_two_rows init_tables
             [LTRect; Text overlap_a; Text overlap_b]).
    vm_compute. lia.
  - destruct (regular_table_when_two_rows init_tables page_ab) as [_ Hmake].
    destruct Hmake as (df & top & Hrun & Hrows & _); [vm_compute; lia|].
    exists df. split; [exact Hrun|]. rewrite Hrows. reflexivity.
Defined.

(** ** Delimited tables: when one is made, and its cells *)

(** X15. A block with a chosen delimiter gives a table exactly when at least
    two of its lines contain the delimiter; the header is the row of the
    first such line and every later such line gives one data row. *)
Theorem delimited_table_when_two_lines (all_tables : AllTables) (lines : list str)
  (delimiter : char) (table_type : TableType) :
  (length (filter (contains delimiter) lines) < 2 ->
   _process_delimited_table all_tables lines delimiter table_type = Ok all_tables)
  /\ (2 <= length (filter (contains delimiter) lines) ->
      exists first rest,
        filter (contains delimiter) lines = first :: rest
        /\ _process_delimited_table all_tables lines delimiter table_type
           = Ok (append_table all_tables table_type
                   (mkDataFrame (row_of_line delimiter first)
                      (map (clean_row (length (row_of_line delimiter first)))
                         (map (row_of_line delimiter) rest))))).
Proof.
  split.
  - intros Hlen. apply process_delimited_table_short.
    now rewrite delimited_table_data_rows, length_map.
  - intros Hlen.
    destruct (filter (contains delimiter) lines) as [|first rest] eqn:Hf;
      [simpl in Hlen; lia|].
    exists first, rest. split; [reflexivity|].
    apply process_delimited_table_long.
    + now rewrite delimited_table_data_rows, Hf.
    + destruct rest; [simpl in Hlen; lia|discriminate].
Qed.

Lemma delimited_table_when_two_lines_witness :
  _process_delimited_table init_tables
    [lit "Name: John: Smith"; lit "Note: see below"] COLON colon_separated
  = Ok (mkAllTables [] []
          [mkDataFrame [lit "Name"; lit "John"; lit "Smith"]
             [[lit "Note"; lit "see below"; lit ""]]] []).
Proof.
  destruct (delimited_table_when_two_lines init_tables
              [lit "Name: John: Smith"; lit "Note: see below"]
              COLON colon_separated) as [_ Hmake].
  destruct Hmake as (first & rest & Hf & ->); [vm_compute; lia|].
  vm_compute in Hf. injection Hf as <- <-. reflexivity.
Defined.

Lemma count_all_space (c : char) (s : str) :
  isspace c = false -> all_space s -> count c s = 0.
Proof.
  intros Hc Hs. induction Hs as [|x s Hx _ IH]; simpl; [reflexivity|].
  destruct (N.eqb_spec x c) as [->|_]; [congruence|exact IH].
Qed.

Lemma count_strip (c : char) (s : str) :
  isspace c = false -> count c (strip s) = count c s.
Proof.
  intros Hc. destruct (strip_spec s) as (pre & post & Hs & Hpre & Hpost & _).
  rewrite Hs at 2. rewrite !count_app.
  rewrite (count_all_space c pre), (count_all_space c post) by assumption. lia.
Qed.

Lemma count_sub_ws (c : char) (b : bool) (s : str) :
  isspace c = false -> count c (sub_ws_from b s) = count c s.
Proof.
  intros Hc. revert b; induction s as [|x s IH]; intros b; simpl; [reflexivity|].
  destruct (isspace x) eqn:Hx.
  - assert (Hne : N.eqb x c = false)
      by (apply N.eqb_neq; intros ->; congruence).
    rewrite Hne. destruct b; cbn [count]; rewrite IH; [reflexivity|].
    destruct (N.eqb_spec SPACE c) as [<-|_]; [discriminate|reflexivity].
  - simpl. now rewrite IH.
Qed.

(** X16. For a delimiter that is no whitespace, a line gives one cell more
    than it holds delimiters. *)
Theorem cells_of_a_line (delimiter : char) (line : str) :
  isspace delimiter = false ->
  length (row_of_line delimiter line) = S (count delimiter line).
Proof.
  intros Hd. unfold row_of_line.
  rewrite length_map, split_length. f_equal.
  unfold re_sub_ws. rewrite count_sub_ws, count_strip by exact Hd. reflexivity.
Qed.

Lemma cells_of_a_line_witness :
  length (row_of_line COLON (lit "Name: John: Smith")) = 3.
Proof.
  rewrite (cells_of_a_line COLON (lit "Name: John: Smith")); reflexivity.
Defined.

Lemma split_incl (sep : char) (s cell : str) (c : char) :
  In cell (split sep s) -> In c cell -> In c s.
Proof.
  revert cell; induction s as [|x s IH]; simpl; intros cell Hcell Hc.
  - destruct Hcell as [<-|[]]. exact Hc.
  - destruct (N.eqb x sep).
    + destruct Hcell as [<-|Hcell]; [contradiction|]. right. now apply (IH cell).
    + destruct (split sep s) as [|cell0 cells]; simpl in Hcell.
      * destruct Hcell as [<-|[]]. destruct Hc as [<-|[]]. now left.
      * destruct Hcell as [<-|Hcell].
        -- destruct Hc as [<-|Hc]; [now left|]. right. apply (IH cell0); auto.
           now left.
        -- right. apply (IH cell); auto. now right.
Qed.

(** X17. A cell of a delimited row holds no delimiter, neither starts nor
    ends with whitespace, and its only whitespace is the plain space; a
    cell of a regular row neither starts nor ends with whitespace. *)
Theorem cells_are_trimmed (delimiter : char) (line : str) (e : LTTextContainer) :
  Forall
    (fun cell_text =>
       ~ In delimiter cell_text
       /\ (forall c rest, cell_text = c :: rest -> isspace c = false)
       /\ (forall c rest, cell_text = rest ++ [c] -> isspace c = false)
       /\ (forall c, In c cell_text -> isspace c = true -> c = SPACE))
    (row_of_line delimiter line)
  /\ (forall c rest, cell e = c :: rest -> isspace c = false)
  /\ (forall c rest, cell e = rest ++ [c] -> isspace c = false).
Proof.
  split.
  - unfold row_of_line. apply Forall_map, Forall_forall. intros x Hx.
    destruct (strip_spec x) as (pre & post & _ & _ & _ & Hhead & Hlast).
    repeat split; [|exact Hhead|exact Hlast|].
    + intros Hin. apply strip_incl in Hin.
      pose proof (split_cells_without_sep delimiter (re_sub_ws (strip line))) as Hno.
      rewrite Forall_forall in Hno. now apply (Hno x Hx).
    + intros c Hc Hspace. apply strip_incl in Hc.
      apply (split_incl _ _ _ _ Hx), sub_ws_chars in Hc.
      destruct Hc as [Hc|[Hc _]]; [exact Hc|congruence].
  - unfold cell.
    destruct (strip_spec (get_text e)) as (pre & post & _ & _ & _ & Hhead & Hlast).
    split; assumption.
Qed.

(** X18. Normalizing again the header and rows of a normalized table gives
    the same table. *)
Theorem normalizer_is_idempotent (table_data : list (list str)) (df : DataFrame) :
  _create_dataframe table_data = Ok df ->
  _create_dataframe (columns df :: data df) = Ok df.
Proof. apply create_dataframe_again. Qed.

Lemma normalizer_is_idempotent_witness :
  _create_dataframe [[lit "A"; lit "B"]; [lit "1"]; [lit "2"; lit "3"; lit "4"]]
  = Ok (mkDataFrame [lit "A"; lit "B"] [[lit "1"; lit ""]; [lit "2"; lit "3"]])
  /\ _create_dataframe [[lit "A"; lit "B"]; [lit "1"; lit ""]; [lit "2"; lit "3"]]
     = Ok (mkDataFrame [lit "A"; lit "B"] [[lit "1"; lit ""]; [lit "2"; lit "3"]]).
Proof.
  split; [reflexivity|].
  apply (normalizer_is_idempotent
           [[lit "A"; lit "B"]; [lit "1"]; [lit "2"; lit "3"; lit "4"]]
           (mkDataFrame [lit "A"; lit "B"] [[lit "1"; lit ""]; [lit "2"; lit "3"]])).
  reflexivity.
Defined.

(** ** Row keys *)

Lemma round_bounds (q : Q) :
  (inject_Z (round q) - q <= 1 # 2)%Q /\ (q - inject_Z (round q) <= 1 # 2)%Q.
Proof.
  unfold round.
  pose proof (Qfloor_le q) as Hlo. pose proof (Qlt_floor q) as Hhi.
  rewrite inject_Z_plus in Hhi. change (inject_Z 1) with 1%Q in Hhi.
  destruct (q - inject_Z (Qfloor q) ?= 1 # 2)%Q eqn:Hc.
  - apply Qeq_alt in Hc.
    destruct (Z.even (Qfloor q)); rewrite ?inject_Z_plus;
      change (inject_Z 1) with 1%Q; split; lra.
  - apply Qlt_alt in Hc. split; lra.
  - apply Qgt_alt in Hc. rewrite inject_Z_plus.
    change (inject_Z 1) with 1%Q. split; lra.
Qed.

Lemma round_comp (q1 q2 : Q) : (q1 == q2)%Q -> round q1 = round q2.
Proof.
  intros Heq. unfold round. rewrite (Qfloor_comp _ _ Heq).
  assert (Hc : (q1 - inject_Z (Qfloor q2) ?= 1 # 2)%Q
               = (q2 - inject_Z (Qfloor q2) ?= 1 # 2)%Q)
    by (apply Qcompare_comp; [now rewrite Heq|reflexivity]).
  now rewrite Hc.
Qed.

Lemma round_monotone (q1 q2 : Q) : (q1 <= q2)%Q -> (round q1 <= round q2)%Z.
Proof.
  intros Hle. destruct (Z_le_gt_dec (round q1) (round q2)) as [H|Hgt]; [exact H|].
  exfalso.
  assert (Hstep : (round q2 + 1 <= round q1)%Z) by lia.
  rewrite Zle_Qle, inject_Z_plus in Hstep. change (inject_Z 1) with 1%Q in Hstep.
  destruct (round_bounds q1) as [H1 _], (round_bounds q2) as [_ H2].
  assert (Heq : (q1 == q2)%Q) by lra.
  apply round_comp in Heq. lia.
Qed.

(** X13. The row key is the nearest integer to [y0]: it is off by at most
    one half, grows with [y0], and two elements whose [y0] differ by more
    than one never share a row, the higher one having the greater key. *)
Theorem row_keys_follow_y0 (a b : LTTextContainer) :
  (inject_Z (row_key a) - y0 a <= 1 # 2)%Q
  /\ (y0 a - inject_Z (row_key a) <= 1 # 2)%Q
  /\ ((y0 a == y0 b)%Q -> row_key a = row_key b)
  /\ ((y0 a <= y0 b)%Q -> (row_key a <= row_key b)%Z)
  /\ ((y0 b + 1 < y0 a)%Q -> (row_key b < row_key a)%Z).
Proof.
  unfold row_key.
  split; [apply round_bounds|]. split; [apply round_bounds|].
  split; [apply round_comp|]. split; [apply round_monotone|].
  intros Hgap. rewrite Zlt_Qlt.
  destruct (round_bounds (y0 a)) as [_ Ha], (round_bounds (y0 b)) as [Hb _].
  lra.
Qed.

Lemma row_keys_follow_y0_witness :
  (row_key below_c < row_key overlap_a)%Z
  /\ row_key overlap_a = row_key overlap_b.
Proof.
  destruct (row_keys_follow_y0 overlap_a below_c) as (_ & _ & _ & _ & Hgap).
  destruct (row_keys_follow_y0 overlap_a overlap_b) as (_ & _ & Hsame & _).
  split; [apply Hgap; simpl; lra|apply Hsame; reflexivity].
Defined.

(** ** One page, one block *)

(** X6. A page adds its regular table, if any, and then the tables of its
    blocks in reading order; the delimited pass reads all the text
    elements of the page, whether or not they went into a regular table. *)
Theorem page_yields_regular_then_blocks (all_tables : AllTables)
  (elements : list Element) :
  exists d,
    _extract_regular_tables init_tables elements = Ok d
    /\ length (regular d) <= 1 /\ tab d = [] /\ colon d = [] /\ other d = []
    /\ _process_page_elements all_tables elements
       = Ok (fold_left merge_tables
               (map tables_of_block (_group_text_blocks (text_elements elements)))
               (merge_tables all_tables d)).
Proof.
  destruct (regular_part_well_formed elements)
    as (d & Hd & _ & Hreg & Htab & Hcolon & Hother).
  exists d. repeat split; try assumption.
  unfold _process_page_elements.
  destruct (extract_regular_tables_merge all_tables elements) as (d' & Hd' & ->).
  rewrite Hd in Hd'. injection Hd' as <-. simpl.
  apply extract_delimited_tables_merge.
Qed.

(** X7. A block adds at most one table, to one of the tab, colon and other
    categories and never to the regular one, and leaves the tables that
    are there in place. *)
Theorem block_gives_at_most_one_table (all_tables : AllTables) (block : str) :
  exists d,
    extract_block all_tables block = Ok (merge_tables all_tables d)
    /\ regular d = []
    /\ length (tab d) + length (colon d) + length (other d) <= 1
    /\ Forall well_formed (all_frames d).
Proof.
  exists (tables_of_block block).
  destruct (tables_of_block_well_formed block) as (Hwf & Hreg & Hone).
  split; [apply extract_block_merge|]. split; [exact Hreg|].
  split; [|exact Hwf].
  unfold all_frames in Hone. rewrite Hreg, !length_app in Hone.
  simpl in Hone. lia.
Qed.

Lemma cells_are_trimmed_witness :
  row_of_line COLON (lit " a : b ") = [lit "a"; lit "b"]
  /\ isspace 97%N = false.
Proof.
  split; [reflexivity|].
  destruct (cells_are_trimmed COLON (lit " a : b ") overlap_a) as [Hcells _].
  apply Forall_inv in Hcells. destruct Hcells as (_ & Hhead & _).
  apply (Hhead 97%N []). reflexivity.
Defined.

(** X14. Within a row of the Row Clusterer, the elements of equal [x0]
    come in the order they have on the page. *)
Theorem equal_x0_keep_input_order (elements : list Element) (x : Q) :
  Forall
    (fun item =>
       filter (fun e => Qeq_bool (x0 e) x) (snd item)
       = filter (fun e => Qeq_bool (x0 e) x)
           (filter (in_row (fst item)) (text_elements elements)))
    (clustered_rows elements).
Proof.
  rewrite clustered_rows_by_key. apply Forall_map, Forall_forall.
  intros k _. simpl. apply sorted_stable. intros a b Ha Hb.
  apply Qeq_bool_iff in Ha, Hb. apply Qltb_ge. rewrite Ha, Hb. apply Qle_refl.
Qed.
